(** * Plivo stream SDK: the WebSocket server and its event schemas

  A shallow embedding of [PlivoWebSocketServer] (connection set-up,
  message buffering, event dispatch, outbound commands) and of the zod
  schemas of the inbound events, with the properties the specification
  states about them. *)

From Stdlib Require Import QArith.
From Stdlib Require Import List String Ascii Bool Arith NArith ZArith Lia Btauto.
From Stdlib Require Import Strings.Byte.
Import ListNotations.
Close Scope Q_scope.
Open Scope string_scope.
Open Scope list_scope.
Open Scope nat_scope.

Set Implicit Arguments.
Set Warnings "-register-all".

(** ** Node's [Buffer]: base64 *)

(** A [Buffer] (also a [Uint8Array] or an [ArrayBuffer] once wrapped by
    [Buffer.from]) is its sequence of bytes. *)
Definition Buffer := list byte.

Module Base64.

Local Open Scope N_scope.

Definition alphabet : list ascii :=
  list_ascii_of_string
    "ABCDEFGHIJKLMNOPQRSTUVWXYZabcdefghijklmnopqrstuvwxyz0123456789+/".

(** The character of a 6-bit value. *)
Definition char_of (v : N) : ascii :=
  nth (N.to_nat v) alphabet "="%char.

(** The decoder's table: the 6-bit value of a character; it also knows
    the URL-safe [-] and [_]. *)
Definition unbase64 (c : ascii) : option N :=
  let n := N_of_ascii c in
  if (65 <=? n) && (n <=? 90) then Some (n - 65)
  else if (97 <=? n) && (n <=? 122) then Some (n - 97 + 26)
  else if (48 <=? n) && (n <=? 57) then Some (n - 48 + 52)
  else if (n =? 43) || (n =? 45) then Some 62
  else if (n =? 47) || (n =? 95) then Some 63
  else None.

Definition byte_of (n : N) : byte :=
  match Byte.of_N n with Some b => b | None => x00 end.

(** The 24 bits of three bytes, cut into four 6-bit values. *)
Definition group (a b c : byte) : N :=
  Byte.to_N a * 65536 + Byte.to_N b * 256 + Byte.to_N c.

Definition quad (n : N) : string :=
  String (char_of (n / 262144))
    (String (char_of ((n / 4096) mod 64))
      (String (char_of ((n / 64) mod 64))
        (String (char_of (n mod 64)) EmptyString))).

(** [buf.toString('base64')]: three bytes give four characters; one or
    two bytes left over give two or three characters and [=] padding. *)
Fixpoint encode (bs : Buffer) : string :=
  match bs with
  | [] => EmptyString
  | [a] =>
      let n := group a x00 x00 in
      String (char_of (n / 262144))
        (String (char_of ((n / 4096) mod 64)) "==")
  | [a; b] =>
      let n := group a b x00 in
      String (char_of (n / 262144))
        (String (char_of ((n / 4096) mod 64))
          (String (char_of ((n / 64) mod 64)) "="))
  | a :: b :: c :: rest => (quad (group a b c) ++ encode rest)%string
  end.

(** The decoder reads the legal characters, skips the others and stops
    at the first [=]. *)
Fixpoint sextets (s : string) : list N :=
  match s with
  | EmptyString => []
  | String c rest =>
      if Ascii.eqb c "="%char then []
      else match unbase64 c with
           | Some v => v :: sextets rest
           | None => sextets rest
           end
  end.

Fixpoint bytes_of (vs : list N) : Buffer :=
  match vs with
  | v1 :: v2 :: v3 :: v4 :: rest =>
      let n := v1 * 262144 + v2 * 4096 + v3 * 64 + v4 in
      byte_of (n / 65536) :: byte_of ((n / 256) mod 256)
        :: byte_of (n mod 256) :: bytes_of rest
  | [v1; v2; v3] =>
      let n := v1 * 262144 + v2 * 4096 + v3 * 64 in
      [byte_of (n / 65536); byte_of ((n / 256) mod 256)]
  | [v1; v2] =>
      let n := v1 * 262144 + v2 * 4096 in
      [byte_of (n / 65536)]
  | _ => []
  end.

(** [Buffer.from(s, 'base64')]. *)
Definition decode (s : string) : Buffer := bytes_of (sextets s).

End Base64.


(** ** Values of the runtime *)

(** A number as [JSON.parse] gives it: finite, or an infinity when the
    literal overflows.  No arithmetic is done on numbers here; the rational
    stands for the value. *)
Inductive number :=
| Finite (q : Q)
| Infinity (negative : bool).

(** The decoded JSON value, what [JSON.parse] returns.  An object keeps its
    properties as pairs; a key occurs once. *)
Inductive json :=
| JNull
| JBool (b : bool)
| JNumber (n : number)
| JString (s : string)
| JArray (items : list json)
| JObject (props : list (string * json)).

(** A value that may be [undefined] ([None]). *)
Definition jsvalue := option json.

Fixpoint assoc (k : string) (props : list (string * json)) : jsvalue :=
  match props with
  | [] => None
  | (k', v) :: rest => if String.eqb k k' then Some v else assoc k rest
  end.

(** ** The schema library (zod 4) *)

Inductive PathSeg :=
| Key (k : string)
| Index (i : nat).

Inductive IssueCode :=
| invalid_type (expected : string)
| invalid_format (format : string)
| invalid_value (literal : string).

Record ZodIssue := { code : IssueCode; path : list PathSeg }.

Inductive ZodResult (A : Type) :=
| Valid (a : A)
| Invalid (issues : list ZodIssue).
Arguments Valid {A} a.
Arguments Invalid {A} issues.

(** A schema checks a value, which is [undefined] when the key is missing. *)
Definition Schema (A : Type) := jsvalue -> ZodResult A.

Definition issue (c : IssueCode) : ZodIssue := {| code := c; path := [] |}.

Definition under (seg : PathSeg) (i : ZodIssue) : ZodIssue :=
  {| code := code i; path := seg :: path i |}.

Definition at_seg {A} (seg : PathSeg) (r : ZodResult A) : ZodResult A :=
  match r with
  | Valid a => Valid a
  | Invalid issues => Invalid (map (under seg) issues)
  end.

(** Every property is checked; the issues of all of them are gathered, in
    the order of the shape. *)
Definition ap {A B} (f : ZodResult (A -> B)) (x : ZodResult A) : ZodResult B :=
  match f, x with
  | Valid g, Valid a => Valid (g a)
  | Valid _, Invalid j => Invalid j
  | Invalid i, Valid _ => Invalid i
  | Invalid i, Invalid j => Invalid (i ++ j)
  end.

Notation "f <*> x" := (ap f x) (at level 50, left associativity).

Definition z_string : Schema string :=
  fun v => match v with
           | Some (JString s) => Valid s
           | _ => Invalid [issue (invalid_type "string")]
           end.

(** [z.number()] refuses the infinities. *)
Definition z_number : Schema number :=
  fun v => match v with
           | Some (JNumber (Finite q)) => Valid (Finite q)
           | _ => Invalid [issue (invalid_type "number")]
           end.

Definition z_literal (lit : string) : Schema string :=
  fun v => match v with
           | Some (JString s) =>
               if String.eqb s lit then Valid s
               else Invalid [issue (invalid_value lit)]
           | _ => Invalid [issue (invalid_value lit)]
           end.

Definition in_range (lo hi c : ascii) : bool :=
  (N_of_ascii lo <=? N_of_ascii c)%N && (N_of_ascii c <=? N_of_ascii hi)%N.

Definition is_hex (c : ascii) : bool :=
  in_range "0" "9" c || in_range "a" "f" c || in_range "A" "F" c.

(** [n] hexadecimal digits, then the rest. *)
Fixpoint hex (n : nat) (l : list ascii) : option (list ascii) :=
  match n with
  | O => Some l
  | S n' => match l with
            | c :: rest => if is_hex c then hex n' rest else None
            | [] => None
            end
  end.

Definition one (ok : ascii -> bool) (l : list ascii) : option (list ascii) :=
  match l with
  | c :: rest => if ok c then Some rest else None
  | [] => None
  end.

Definition dash : list ascii -> option (list ascii) :=
  one (Ascii.eqb "-").

Definition variant_digit (c : ascii) : bool :=
  existsb (Ascii.eqb c) (list_ascii_of_string "89abAB").

Definition then_ (p q : list ascii -> option (list ascii)) :
  list ascii -> option (list ascii) :=
  fun l => match p l with Some rest => q rest | None => None end.

(** The pattern of [z.uuid()]: 8-4-4-4-12 hexadecimal digits with a version
    digit 1 to 8 and a variant digit among 8, 9, a, b; or the nil or the max
    identifier. *)
Definition uuid_regex (s : string) : bool :=
  match
    then_ (hex 8) (then_ dash (then_ (hex 4) (then_ dash
      (then_ (one (in_range "1" "8")) (then_ (hex 3) (then_ dash
        (then_ (one variant_digit) (then_ (hex 3) (then_ dash (hex 12))))))))))
      (list_ascii_of_string s)
  with
  | Some [] => true
  | _ => String.eqb s "00000000-0000-0000-0000-000000000000"
         || String.eqb s "ffffffff-ffff-ffff-ffff-ffffffffffff"
  end.

Definition z_uuid : Schema string :=
  fun v => match v with
           | Some (JString s) =>
               if uuid_regex s then Valid s
               else Invalid [issue (invalid_format "uuid")]
           | _ => Invalid [issue (invalid_type "string")]
           end.

Fixpoint each {A} (el : Schema A) (i : nat) (items : list json) :
  ZodResult (list A) :=
  match items with
  | [] => Valid []
  | x :: rest => Valid cons <*> at_seg (Index i) (el (Some x)) <*> each el (S i) rest
  end.

Definition z_array {A} (el : Schema A) : Schema (list A) :=
  fun v => match v with
           | Some (JArray items) => each el 0 items
           | _ => Invalid [issue (invalid_type "array")]
           end.

(** [z.object(shape)]: the value must be an object; [body] checks the keys of
    the shape, and keys outside the shape are dropped from the result. *)
Definition z_object {A} (body : list (string * json) -> ZodResult A) : Schema A :=
  fun v => match v with
           | Some (JObject props) => body props
           | _ => Invalid [issue (invalid_type "object")]
           end.

Definition field {A} (props : list (string * json)) (k : string)
  (s : Schema A) : ZodResult A :=
  at_seg (Key k) (s (assoc k props)).

(** ** The event schemas *)

Module MediaFormat.
Record t := { encoding : string; sampleRate : number }.
End MediaFormat.

Module StartEventData.
Record t := {
  callId : string;
  streamId : string;
  accountId : string;
  tracks : list string;
  mediaFormat : MediaFormat.t }.
End StartEventData.

Module StartEvent.
Record t := {
  event : string;
  sequenceNumber : number;
  start : StartEventData.t;
  extra_headers : string }.
End StartEvent.

Module MediaEventData.
Record t := {
  track : string;
  timestamp : string;
  chunk : number;
  payload : string }.
End MediaEventData.

(** The object the [MediaEventSchema] transform returns: the checked
    properties, and [getRawMedia] below. *)
Module MediaEvent.
Record t := {
  sequenceNumber : number;
  streamId : string;
  event : string;
  media : MediaEventData.t;
  extra_headers : string }.
End MediaEvent.

Module DTMFEventData.
Record t := { track : string; digit : string; timestamp : string }.
End DTMFEventData.

Module DTMFEvent.
Record t := {
  event : string;
  sequenceNumber : number;
  streamId : string;
  dtmf : DTMFEventData.t;
  extra_headers : string }.
End DTMFEvent.

Module PlayedStreamEvent.
Record t := {
  event : string;
  sequenceNumber : number;
  streamId : string;
  name : string }.
End PlayedStreamEvent.

Module ClearedAudioEvent.
Record t := {
  event : string;
  sequenceNumber : number;
  streamId : string }.
End ClearedAudioEvent.

Definition StartEventDataSchema : Schema StartEventData.t :=
  z_object (fun o =>
    Valid StartEventData.Build_t
      <*> field o "callId" z_uuid
      <*> field o "streamId" z_uuid
      <*> field o "accountId" z_string
      <*> field o "tracks" (z_array z_string)
      <*> field o "mediaFormat" (z_object (fun m =>
            Valid MediaFormat.Build_t
              <*> field m "encoding" z_string
              <*> field m "sampleRate" z_number))).

Definition StartEventSchema : Schema StartEvent.t :=
  z_object (fun o =>
    Valid StartEvent.Build_t
      <*> field o "event" (z_literal "start")
      <*> field o "sequenceNumber" z_number
      <*> field o "start" StartEventDataSchema
      <*> field o "extra_headers" z_string).

Definition MediaEventDataSchema : Schema MediaEventData.t :=
  z_object (fun o =>
    Valid MediaEventData.Build_t
      <*> field o "track" z_string
      <*> field o "timestamp" z_string
      <*> field o "chunk" z_number
      <*> field o "payload" z_string).

Definition MediaEventSchema : Schema MediaEvent.t :=
  z_object (fun o =>
    Valid MediaEvent.Build_t
      <*> field o "sequenceNumber" z_number
      <*> field o "streamId" z_uuid
      <*> field o "event" (z_literal "media")
      <*> field o "media" MediaEventDataSchema
      <*> field o "extra_headers" z_string).

(** Decode base64 payload to raw audio Buffer. *)
Definition getRawMedia (data : MediaEvent.t) : Buffer :=
  Base64.decode (MediaEventData.payload (MediaEvent.media data)).

Definition DTMFEventDataSchema : Schema DTMFEventData.t :=
  z_object (fun o =>
    Valid DTMFEventData.Build_t
      <*> field o "track" z_string
      <*> field o "digit" z_string
      <*> field o "timestamp" z_string).

Definition DTMFEventSchema : Schema DTMFEvent.t :=
  z_object (fun o =>
    Valid DTMFEvent.Build_t
      <*> field o "event" (z_literal "dtmf")
      <*> field o "sequenceNumber" z_number
      <*> field o "streamId" z_uuid
      <*> field o "dtmf" DTMFEventDataSchema
      <*> field o "extra_headers" z_string).

Definition PlayedStreamEventSchema : Schema PlayedStreamEvent.t :=
  z_object (fun o =>
    Valid PlayedStreamEvent.Build_t
      <*> field o "event" (z_literal "playedStream")
      <*> field o "sequenceNumber" z_number
      <*> field o "streamId" z_uuid
      <*> field o "name" z_string).

Definition ClearedAudioEventSchema : Schema ClearedAudioEvent.t :=
  z_object (fun o =>
    Valid ClearedAudioEvent.Build_t
      <*> field o "event" (z_literal "clearedAudio")
      <*> field o "sequenceNumber" z_number
      <*> field o "streamId" z_uuid).

(** ** Errors and exceptions *)

(** The text of an error message, kept as the pieces of the template
    literal that builds it: literal text, a value rendered by the runtime's
    [String(...)], or the issue list a [ZodError] renders. *)
Inductive Piece :=
| Text (s : string)
| StringOf (v : jsvalue)
| Issues (l : list ZodIssue).

Definition Message := list Piece.

(** An [Error] object (also [SyntaxError], [TypeError], [ZodError]). *)
Record Error := { message : Message }.

(** What a [throw] carries: an [Error], or any other value. *)
Inductive Thrown :=
| ThrowError (e : Error)
| ThrowValue (v : jsvalue).

(** [error instanceof Error ? error.message : String(error)] *)
Definition describe (error : Thrown) : Message :=
  match error with
  | ThrowError e => message e
  | ThrowValue v => [StringOf v]
  end.

(** What a callback does when it is called: it returns, or it throws (for a
    connection callback: its promise resolves, or it rejects). *)
Inductive Completion :=
| Normal
| Throws (t : Thrown).

(** ** The connection and what can be observed of it *)

Module ConnectionMetadata.
Record t := {
  streamId : option string;
  accountId : option string;
  callId : option string;
  headers : option string }.
Definition empty : t :=
  {| streamId := None; accountId := None; callId := None; headers := None |}.
Definition with_streamId (v : string) (m : t) : t :=
  {| streamId := Some v; accountId := accountId m; callId := callId m;
     headers := headers m |}.
Definition with_accountId (v : string) (m : t) : t :=
  {| streamId := streamId m; accountId := Some v; callId := callId m;
     headers := headers m |}.
Definition with_callId (v : string) (m : t) : t :=
  {| streamId := streamId m; accountId := accountId m; callId := Some v;
     headers := headers m |}.
Definition with_headers (v : string) (m : t) : t :=
  {| streamId := streamId m; accountId := accountId m; callId := callId m;
     headers := Some v |}.
End ConnectionMetadata.

Inductive ReadyState := CONNECTING | OPEN | CLOSING | CLOSED.

Inductive Level := log_ | warn_ | error_.

(** The frame the transport hands to the ['message'] handler, seen through
    [JSON.parse(data.toString())]: text that is not JSON (with the message of
    the [SyntaxError]), or the text of a JSON value. *)
Inductive RawData :=
| NotJSON (syntaxError : string)
| JSONText (value : json).

(** The calls the server makes, in the order it makes them.  [Dispatch]
    marks the entry into [handleIncomingEvent]; [Uncaught] an exception that
    leaves a transport handler. *)
Inductive Action :=
| Console (level : Level) (args : Message)
| CallConnection (i : nat)
| CallStart (i : nat) (e : StartEvent.t)
| CallMedia (i : nat) (e : MediaEvent.t)
| CallDtmf (i : nat) (e : DTMFEvent.t)
| CallPlayedStream (i : nat) (e : PlayedStreamEvent.t)
| CallClearedAudio (i : nat) (e : ClearedAudioEvent.t)
| CallError (i : nat) (e : Error)
| CallClose (i : nat)
| WsClose (code : N) (reason : string)
| WsSend (text : RawData)
| Dispatch (data : json)
| Uncaught (t : Thrown).

(** One connection: the socket's state, its entry in [connectionMetadata],
    the locals [isReady] and [messageBuffer] of the connection handler, and
    where that handler is suspended. *)
Record Connection := {
  readyState : ReadyState;
  metadata : option ConnectionMetadata.t;
  listening : bool;
  isReady : bool;
  messageBuffer : list json;
  awaiting : option nat;
  trace : list Action }.

Definition set_readyState (r : ReadyState) (c : Connection) : Connection :=
  {| readyState := r; metadata := metadata c; listening := listening c;
     isReady := isReady c; messageBuffer := messageBuffer c;
     awaiting := awaiting c; trace := trace c |}.

Definition set_metadata (m : option ConnectionMetadata.t) (c : Connection) :
  Connection :=
  {| readyState := readyState c; metadata := m; listening := listening c;
     isReady := isReady c; messageBuffer := messageBuffer c;
     awaiting := awaiting c; trace := trace c |}.

Definition set_listening (b : bool) (c : Connection) : Connection :=
  {| readyState := readyState c; metadata := metadata c; listening := b;
     isReady := isReady c; messageBuffer := messageBuffer c;
     awaiting := awaiting c; trace := trace c |}.

Definition set_isReady (b : bool) (c : Connection) : Connection :=
  {| readyState := readyState c; metadata := metadata c;
     listening := listening c; isReady := b;
     messageBuffer := messageBuffer c; awaiting := awaiting c;
     trace := trace c |}.

Definition set_messageBuffer (l : list json) (c : Connection) : Connection :=
  {| readyState := readyState c; metadata := metadata c;
     listening := listening c; isReady := isReady c; messageBuffer := l;
     awaiting := awaiting c; trace := trace c |}.

Definition set_awaiting (a : option nat) (c : Connection) : Connection :=
  {| readyState := readyState c; metadata := metadata c;
     listening := listening c; isReady := isReady c;
     messageBuffer := messageBuffer c; awaiting := a; trace := trace c |}.

Definition set_trace (t : list Action) (c : Connection) : Connection :=
  {| readyState := readyState c; metadata := metadata c;
     listening := listening c; isReady := isReady c;
     messageBuffer := messageBuffer c; awaiting := awaiting c; trace := t |}.

(** ** Code that changes the connection and may throw *)

Inductive Outcome (A : Type) :=
| Ret (a : A)
| Exn (t : Thrown).
Arguments Ret {A} a.
Arguments Exn {A} t.

Definition Eff (A : Type) := Connection -> Outcome A * Connection.

Definition ret {A} (a : A) : Eff A := fun c => (Ret a, c).

Definition throw {A} (t : Thrown) : Eff A := fun c => (Exn t, c).

Definition bind {A B} (m : Eff A) (k : A -> Eff B) : Eff B :=
  fun c => match m c with
           | (Ret a, c') => k a c'
           | (Exn t, c') => (Exn t, c')
           end.

(** [try { m } catch (error) { h error }]: what [m] did before it threw
    stays done. *)
Definition try_catch {A} (m : Eff A) (h : Thrown -> Eff A) : Eff A :=
  fun c => match m c with
           | (Ret a, c') => (Ret a, c')
           | (Exn t, c') => h t c'
           end.

Notation "x <- m ;; k" := (bind m (fun x => k))
  (at level 61, m at next level, right associativity).
Notation "m ;; k" := (bind m (fun _ => k))
  (at level 61, right associativity).

Definition gets {A} (f : Connection -> A) : Eff A := fun c => (Ret (f c), c).

Definition modify (f : Connection -> Connection) : Eff unit :=
  fun c => (Ret tt, f c).

Definition emit (a : Action) : Eff unit :=
  modify (fun c => set_trace (trace c ++ [a]) c).

(** Calling a callback: the call is observed, then it returns or throws. *)
Definition call (a : Action) (r : Completion) : Eff unit :=
  emit a ;;
  match r with
  | Normal => ret tt
  | Throws t => throw t
  end.

(** [array.forEach((x, i) => f i x)], also a [for ... of] loop: in order,
    and a throw ends the loop. *)
Fixpoint forEach_from {A} (i : nat) (l : list A) (f : nat -> A -> Eff unit) :
  Eff unit :=
  match l with
  | [] => ret tt
  | x :: rest => f i x ;; forEach_from (S i) rest f
  end.

Definition forEach {A} (l : list A) (f : nat -> A -> Eff unit) : Eff unit :=
  forEach_from 0 l f.

(** [Schema.parse(data)] throws a [ZodError] with the issues. *)
Definition parse {A} (s : Schema A) (data : json) : Eff A :=
  match s (Some data) with
  | Valid a => ret a
  | Invalid issues => throw (ThrowError {| message := [Issues issues] |})
  end.

Definition JSON_parse (data : RawData) : Eff json :=
  match data with
  | JSONText v => ret v
  | NotJSON text => throw (ThrowError {| message := [Text text] |})
  end.

(** [ws.close(code, reason)]: an open socket starts closing. *)
Definition closing (c : Connection) : Connection :=
  match readyState c with
  | OPEN => set_readyState CLOSING c
  | _ => c
  end.

Definition ws_close (code : N) (reason : string) : Eff unit :=
  emit (WsClose code reason) ;;
  modify closing.

(** [ws.send(JSON.stringify(event))] *)
Definition ws_send (event : json) : Eff unit := emit (WsSend (JSONText event)).

(** ** The server *)

(** What the connection handler reads of the upgrade request. *)
Record IncomingMessage := {
  x_plivo_signature_v3 : option string;
  x_plivo_signature_v3_nonce : option string;
  host : option string;
  url : option string;
  method : option string;
  encrypted : bool }.

Definition ConnectionCallback := IncomingMessage -> Completion.

Definition Callback (A : Type) := A -> Completion.

(** The fields of [PlivoWebSocketServer]; [validateV3Signature] is the
    function imported from the vendor's package (method, uri, nonce, auth
    token, signature), which answers or throws. *)
Record PlivoWebSocketServer := {
  validateSignatureEnabled : bool;
  authToken : option string;
  validateV3Signature :
    string -> string -> string -> option string -> string -> Thrown + bool;
  connectionCallbacks : list ConnectionCallback;
  startCallbacks : list (Callback StartEvent.t);
  mediaCallbacks : list (Callback MediaEvent.t);
  dtmfCallbacks : list (Callback DTMFEvent.t);
  playedStreamCallbacks : list (Callback PlayedStreamEvent.t);
  clearedAudioCallbacks : list (Callback ClearedAudioEvent.t);
  errorCallbacks : list (Callback Error);
  closeCallbacks : list (Callback unit) }.

Inductive IncomingEventEnum := START | MEDIA | DTMF | PLAYED_STREAM | CLEARED_AUDIO.

(** The [case] a value of [data.event] selects, if any. *)
Definition case_of (v : jsvalue) : option IncomingEventEnum :=
  match v with
  | Some (JString s) =>
      if String.eqb s "start" then Some START
      else if String.eqb s "media" then Some MEDIA
      else if String.eqb s "dtmf" then Some DTMF
      else if String.eqb s "playedStream" then Some PLAYED_STREAM
      else if String.eqb s "clearedAudio" then Some CLEARED_AUDIO
      else None
  | _ => None
  end.

(** [data.event]: reading a property of [null] throws a [TypeError]; a
    value that is not an object has no such property. *)
Definition data_event (data : json) : Eff jsvalue :=
  match data with
  | JNull =>
      throw (ThrowError
        {| message := [Text "Cannot read properties of null (reading 'event')"] |})
  | JObject props => ret (assoc "event" props)
  | _ => ret None
  end.

(** [!s] for an optional string: also true of the empty string. *)
Definition falsy (s : option string) : bool :=
  match s with
  | Some s => String.eqb s ""
  | None => true
  end.

Definition or_else (s : option string) (d : string) : string :=
  if falsy s then d else match s with Some s => s | None => d end.

Section Server.

Variable this : PlivoWebSocketServer.

Definition handleError (error : Error) : Eff unit :=
  if 0 <? List.length (errorCallbacks this) then
    forEach (errorCallbacks this) (fun i cb => call (CallError i error) (cb error))
  else
    emit (Console error_ (Text "[PlivoWebSocketServer] Error:" :: message error)).

Definition handleIncomingEvent (data : json) : Eff unit :=
  emit (Dispatch data) ;;
  try_catch
    (metadata <- gets (fun c => match metadata c with
                                | Some m => m
                                | None => ConnectionMetadata.empty
                                end) ;;
     ev <- data_event data ;;
     match case_of ev with
     | Some START =>
         startEvent <- parse StartEventSchema data ;;
         let metadata :=
           ConnectionMetadata.with_streamId
             (StartEventData.streamId (StartEvent.start startEvent)) metadata in
         let metadata :=
           ConnectionMetadata.with_accountId
             (StartEventData.accountId (StartEvent.start startEvent)) metadata in
         let metadata :=
           ConnectionMetadata.with_callId
             (StartEventData.callId (StartEvent.start startEvent)) metadata in
         let metadata :=
           ConnectionMetadata.with_headers
             (StartEvent.extra_headers startEvent) metadata in
         modify (set_metadata (Some metadata)) ;;
         forEach (startCallbacks this)
           (fun i cb => call (CallStart i startEvent) (cb startEvent))
     | Some MEDIA =>
         mediaEvent <- parse MediaEventSchema data ;;
         forEach (mediaCallbacks this)
           (fun i cb => call (CallMedia i mediaEvent) (cb mediaEvent))
     | Some DTMF =>
         dtmfEvent <- parse DTMFEventSchema data ;;
         forEach (dtmfCallbacks this)
           (fun i cb => call (CallDtmf i dtmfEvent) (cb dtmfEvent))
     | Some PLAYED_STREAM =>
         playedStreamEvent <- parse PlayedStreamEventSchema data ;;
         forEach (playedStreamCallbacks this)
           (fun i cb => call (CallPlayedStream i playedStreamEvent)
                             (cb playedStreamEvent))
     | Some CLEARED_AUDIO =>
         clearedAudioEvent <- parse ClearedAudioEventSchema data ;;
         forEach (clearedAudioCallbacks this)
           (fun i cb => call (CallClearedAudio i clearedAudioEvent)
                             (cb clearedAudioEvent))
     | None =>
         handleError {| message := [Text "Unknown event type: "; StringOf ev] |}
     end)
    (fun error =>
       handleError
         {| message := Text "Failed to handle event: " :: describe error |}).

(** Of the two [console.log] lines only the labels are kept. *)
Definition validateConnectionSignature (request : IncomingMessage) : Eff bool :=
  emit (Console log_ [Text "validateConnectionSignature"]) ;;
  let signature := x_plivo_signature_v3 request in
  let nonce := x_plivo_signature_v3_nonce request in
  if falsy signature || falsy nonce then
    emit (Console error_ [Text "[PlivoWebSocketServer] Missing V3 signature headers"]) ;;
    ret false
  else
    let host := or_else (host request) "" in
    let protocol := if encrypted request then "https" else "http" in
    let uri := (protocol ++ "://" ++ host ++ or_else (url request) "/")%string in
    let method := match method request with Some m => m | None => "GET" end in
    emit (Console log_ [Text "validateV3Signature"]) ;;
    match validateV3Signature this method uri (or_else nonce "")
            (authToken this) (or_else signature "") with
    | inr answer => ret answer
    | inl error =>
        emit (Console error_
                (Text "[PlivoWebSocketServer] Signature validation error:"
                   :: describe error)) ;;
        ret false
    end.

(** The ['message'] handler of a connection. *)
Definition onMessage (data : RawData) : Eff unit :=
  try_catch
    (parsed <- JSON_parse data ;;
     ready <- gets isReady ;;
     if ready then handleIncomingEvent parsed
     else modify (fun c => set_messageBuffer (messageBuffer c ++ [parsed]) c))
    (fun error =>
       handleError
         {| message := Text "Failed to parse message: " :: describe error |}).

(** The ['error'] handler. *)
Definition onError : Eff unit :=
  handleError {| message := [Text "WebSocket error occurred"] |}.

(** The ['close'] handler. *)
Definition onClose : Eff unit :=
  forEach (closeCallbacks this) (fun i cb => call (CallClose i) (cb tt)).

(** The [catch] block of the connection handler. *)
Definition connectionSetupFailed (error : Thrown) : Eff unit :=
  let err := match error with
             | ThrowError e => e
             | ThrowValue v => {| message := [StringOf v] |}
             end in
  emit (Console error_
          (Text "[PlivoWebSocketServer] Connection setup failed:" :: message err)) ;;
  forEach (errorCallbacks this)
    (fun i cb => try_catch (call (CallError i err) (cb err)) (fun _ => ret tt)) ;;
  try_catch (ws_close 1011 "Connection setup failed") (fun _ => ret tt).

(** The [try] block from its [i]-th callback on: the callback is called and
    the handler is suspended on it; after the last one the connection is
    ready and the buffer is processed. *)
Definition runCallbacks (i : nat) : Eff unit :=
  match nth_error (connectionCallbacks this) i with
  | Some _ =>
      emit (CallConnection i) ;;
      modify (set_awaiting (Some i))
  | None =>
      modify (set_isReady true) ;;
      messageBuffer <- gets messageBuffer ;;
      forEach messageBuffer (fun _ msg => handleIncomingEvent msg)
  end.

(** The handler of the server's ['connection'] event, up to its first
    suspension. *)
Definition connectionHandler (request : IncomingMessage) : Eff unit :=
  isValid <- (if validateSignatureEnabled this
              then validateConnectionSignature request
              else ret true) ;;
  if negb isValid then
    emit (Console error_ [Text "[PlivoWebSocketServer] V3 signature validation failed"]) ;;
    ws_close 1008 "Signature validation failed"
  else
    modify (set_metadata (Some ConnectionMetadata.empty)) ;;
    modify (set_listening true) ;;
    try_catch (runCallbacks 0) connectionSetupFailed.

(** The awaited callback settles: the handler goes on, in its [try] block. *)
Definition settled (request : IncomingMessage) : Eff unit :=
  a <- gets awaiting ;;
  match a with
  | None => ret tt
  | Some i =>
      modify (set_awaiting None) ;;
      try_catch
        (match nth_error (connectionCallbacks this) i with
         | Some cb =>
             match cb request with
             | Normal => runCallbacks (S i)
             | Throws t => throw t
             end
         | None => ret tt
         end)
        connectionSetupFailed
  end.

(** What happens to a connection after it is accepted. *)
Inductive Event :=
| SocketMessage (data : RawData)
| SocketError
| SocketClose
| Settled.

(** A handler run by the event loop: an exception that leaves it is
    uncaught. *)
Definition handler (m : Eff unit) (c : Connection) : Connection :=
  match m c with
  | (Ret _, c') => c'
  | (Exn t, c') => set_trace (trace c' ++ [Uncaught t]) c'
  end.

(** The socket as the server's ['connection'] event delivers it. *)
Definition accepted : Connection :=
  {| readyState := OPEN; metadata := None; listening := false;
     isReady := false; messageBuffer := []; awaiting := None; trace := [] |}.

Definition on_connection (request : IncomingMessage) : Connection :=
  handler (connectionHandler request) accepted.

Definition step (request : IncomingMessage) (c : Connection) (e : Event) :
  Connection :=
  match e with
  | SocketMessage data => if listening c then handler (onMessage data) c else c
  | SocketError => if listening c then handler onError c else c
  | SocketClose =>
      let c := set_readyState CLOSED c in
      if listening c then handler onClose c else c
  | Settled => handler (settled request) c
  end.

Definition run (request : IncomingMessage) (events : list Event) : Connection :=
  fold_left (step request) events (on_connection request).

End Server.

(** ** Actions on a connection *)

(** [JSON.stringify] writes a number that is not finite as [null]. *)
Definition number_json (n : number) : json :=
  match n with
  | Finite _ => JNumber n
  | Infinity _ => JNull
  end.

Definition isActive (ws : Connection) : bool :=
  match readyState ws with OPEN => true | _ => false end.

Definition playAudio (contentType : string) (sampleRate : number)
  (payload : Buffer) : Eff unit :=
  open <- gets isActive ;;
  if negb open then
    emit (Console warn_
            [Text "Attempted to play audio on a closed WebSocket connection."])
  else
    let base64Payload := Base64.encode payload in
    ws_send (JObject [("event", JString "playAudio");
                      ("media", JObject [("contentType", JString contentType);
                                         ("sampleRate", number_json sampleRate);
                                         ("payload", JString base64Payload)])]).

(** [connectionMetadata.get(ws)?.streamId] and the like. *)
Definition getStreamId (ws : Connection) : option string :=
  match metadata ws with
  | Some m => ConnectionMetadata.streamId m
  | None => None
  end.

Definition getAccountId (ws : Connection) : option string :=
  match metadata ws with
  | Some m => ConnectionMetadata.accountId m
  | None => None
  end.

Definition getCallId (ws : Connection) : option string :=
  match metadata ws with
  | Some m => ConnectionMetadata.callId m
  | None => None
  end.

Definition getHeaders (ws : Connection) : option string :=
  match metadata ws with
  | Some m => ConnectionMetadata.headers m
  | None => None
  end.

Definition checkpoint (name : string) : Eff unit :=
  streamId <- gets getStreamId ;;
  open <- gets isActive ;;
  if negb open then
    throw (ThrowError {| message := [Text "WebSocket is not connected"] |})
  else if falsy streamId then
    throw (ThrowError
      {| message := [Text "Stream ID not available. Wait for the start event."] |})
  else
    ws_send (JObject [("event", JString "checkpoint");
                      ("streamId", JString (or_else streamId ""));
                      ("name", JString name)]).

Definition clearAudio : Eff unit :=
  streamId <- gets getStreamId ;;
  open <- gets isActive ;;
  if negb open then
    throw (ThrowError {| message := [Text "WebSocket is not connected"] |})
  else if falsy streamId then
    throw (ThrowError
      {| message := [Text "Stream ID not available. Wait for the start event."] |})
  else
    ws_send (JObject [("event", JString "clearAudio");
                      ("streamId", JString (or_else streamId ""))]).

(** ** Words of the specification *)

(** The shape of a value, read property by property. *)
Definition prop (v : jsvalue) (k : string) : jsvalue :=
  match v with
  | Some (JObject props) => assoc k props
  | _ => None
  end.

Definition item (v : jsvalue) (i : nat) : jsvalue :=
  match v with
  | Some (JArray items) => nth_error items i
  | _ => None
  end.

Fixpoint at_path (v : jsvalue) (p : list PathSeg) : jsvalue :=
  match p with
  | [] => v
  | Key k :: rest => at_path (prop v k) rest
  | Index i :: rest => at_path (item v i) rest
  end.

Definition is_object (v : jsvalue) : bool :=
  match v with Some (JObject _) => true | _ => false end.

Definition is_array (v : jsvalue) : bool :=
  match v with Some (JArray _) => true | _ => false end.

Definition is_string (v : jsvalue) : bool :=
  match v with Some (JString _) => true | _ => false end.

Definition is_finite_number (v : jsvalue) : bool :=
  match v with Some (JNumber (Finite _)) => true | _ => false end.

Definition is_uuid (v : jsvalue) : bool :=
  match v with Some (JString s) => uuid_regex s | _ => false end.

Definition is_literal (lit : string) (v : jsvalue) : bool :=
  match v with Some (JString s) => String.eqb s lit | _ => false end.

Definition is_strings (v : jsvalue) : bool :=
  match v with
  | Some (JArray items) => forallb (fun x => is_string (Some x)) items
  | _ => false
  end.

Definition is_integer (n : number) : bool :=
  match n with
  | Finite q => (Z.rem (Qnum q) (Zpos (Qden q)) =? 0)%Z
  | Infinity _ => false
  end.

Definition is_positive_integer (n : number) : bool :=
  match n with
  | Finite q => is_integer n && (0 <? Qnum q)%Z
  | Infinity _ => false
  end.

(** A [start] payload that passes [StartEventSchema]. *)
Definition start_ok (data : json) : bool :=
  let d := Some data in
  let s := prop d "start" in
  let f := prop s "mediaFormat" in
  is_object d
  && is_literal "start" (prop d "event")
  && is_finite_number (prop d "sequenceNumber")
  && (is_object s
      && is_uuid (prop s "callId")
      && is_uuid (prop s "streamId")
      && is_string (prop s "accountId")
      && is_strings (prop s "tracks")
      && (is_object f
          && is_string (prop f "encoding")
          && is_finite_number (prop f "sampleRate")))
  && is_string (prop d "extra_headers").

(** The fields of a [start] payload, by path, each with what the schema
    asks of it. *)
Inductive start_field : list PathSeg -> (jsvalue -> bool) -> Prop :=
| field_root : start_field [] is_object
| field_event : start_field [Key "event"] (is_literal "start")
| field_sequenceNumber : start_field [Key "sequenceNumber"] is_finite_number
| field_start : start_field [Key "start"] is_object
| field_callId : start_field [Key "start"; Key "callId"] is_uuid
| field_streamId : start_field [Key "start"; Key "streamId"] is_uuid
| field_accountId : start_field [Key "start"; Key "accountId"] is_string
| field_tracks : start_field [Key "start"; Key "tracks"] is_array
| field_track i : start_field [Key "start"; Key "tracks"; Index i] is_string
| field_mediaFormat : start_field [Key "start"; Key "mediaFormat"] is_object
| field_encoding :
    start_field [Key "start"; Key "mediaFormat"; Key "encoding"] is_string
| field_sampleRate :
    start_field [Key "start"; Key "mediaFormat"; Key "sampleRate"] is_finite_number
| field_extra_headers : start_field [Key "extra_headers"] is_string.

(** An issue names an offending field: its path leads to a field of the
    payload whose value breaks what the schema asks of it. *)
Definition names_offending_field (data : json) (i : ZodIssue) : Prop :=
  exists rule, start_field (path i) rule /\
               rule (at_path (Some data) (path i)) = false.

(** [r] is the verdict [ok], and when it is a refusal its issues are there
    and all satisfy [Q]. *)
Definition checks {A} (ok : bool) (Q : ZodIssue -> Prop) (r : ZodResult A) : Prop :=
  match r with
  | Valid _ => ok = true
  | Invalid issues => ok = false /\ issues <> [] /\ Forall Q issues
  end.

Arguments checks : simpl never.

(** An issue points, from [root], at a field listed in [F] whose value
    breaks its rule. *)
Definition offends (root : jsvalue)
  (F : list PathSeg -> (jsvalue -> bool) -> Prop) (i : ZodIssue) : Prop :=
  exists rule, F (path i) rule /\ rule (at_path root (path i)) = false.

(** ** Reading a run *)

(** The connection after some more calls were observed. *)
Definition log (l : list Action) (c : Connection) : Connection :=
  set_trace (trace c ++ l) c.

(** The values handed to [handleIncomingEvent], in order. *)
Definition dispatched (t : list Action) : list json :=
  flat_map (fun a => match a with Dispatch d => [d] | _ => [] end) t.


(** How far a [forEach] over callbacks gets: every callback up to and
    including the first that throws is called. *)
Fixpoint calls_made (rs : list Completion) : nat :=
  match rs with
  | [] => 0
  | Normal :: rest => S (calls_made rest)
  | Throws _ :: _ => 1
  end.

Fixpoint first_throw (rs : list Completion) : option Thrown :=
  match rs with
  | [] => None
  | Normal :: rest => first_throw rest
  | Throws t :: _ => Some t
  end.

(** Where the dispatcher sends a decoded value. *)
Inductive Routed :=
| ToStart (e : StartEvent.t)
| ToMedia (e : MediaEvent.t)
| ToDtmf (e : DTMFEvent.t)
| ToPlayedStream (e : PlayedStreamEvent.t)
| ToClearedAudio (e : ClearedAudioEvent.t)
| Unknown (ev : jsvalue)
| Failed (t : Thrown).

Definition checked {A} (to : A -> Routed) (r : ZodResult A) : Routed :=
  match r with
  | Valid e => to e
  | Invalid issues => Failed (ThrowError {| message := [Issues issues] |})
  end.

Definition route (data : json) : Routed :=
  match data with
  | JNull =>
      Failed (ThrowError
        {| message := [Text "Cannot read properties of null (reading 'event')"] |})
  | _ =>
      let ev := prop (Some data) "event" in
      match case_of ev with
      | Some START => checked ToStart (StartEventSchema (Some data))
      | Some MEDIA => checked ToMedia (MediaEventSchema (Some data))
      | Some DTMF => checked ToDtmf (DTMFEventSchema (Some data))
      | Some PLAYED_STREAM =>
          checked ToPlayedStream (PlayedStreamEventSchema (Some data))
      | Some CLEARED_AUDIO =>
          checked ToClearedAudio (ClearedAudioEventSchema (Some data))
      | None => Unknown ev
      end
  end.

(** What the listeners of the routed event do, in registration order, and
    the call that is observed of the [i]-th of them. *)
Definition listeners (this : PlivoWebSocketServer) (r : Routed) : list Completion :=
  match r with
  | ToStart e => map (fun cb => cb e) (startCallbacks this)
  | ToMedia e => map (fun cb => cb e) (mediaCallbacks this)
  | ToDtmf e => map (fun cb => cb e) (dtmfCallbacks this)
  | ToPlayedStream e => map (fun cb => cb e) (playedStreamCallbacks this)
  | ToClearedAudio e => map (fun cb => cb e) (clearedAudioCallbacks this)
  | Unknown _ | Failed _ => []
  end.

Definition listener_call (r : Routed) (i : nat) : list Action :=
  match r with
  | ToStart e => [CallStart i e]
  | ToMedia e => [CallMedia i e]
  | ToDtmf e => [CallDtmf i e]
  | ToPlayedStream e => [CallPlayedStream i e]
  | ToClearedAudio e => [CallClearedAudio i e]
  | Unknown _ | Failed _ => []
  end.

Definition is_event (r : Routed) : bool :=
  match r with
  | Unknown _ | Failed _ => false
  | _ => true
  end.

(** The metadata a [start] event leaves. *)
Definition metadata_of (e : StartEvent.t) : ConnectionMetadata.t :=
  {| ConnectionMetadata.streamId :=
       Some (StartEventData.streamId (StartEvent.start e));
     ConnectionMetadata.accountId :=
       Some (StartEventData.accountId (StartEvent.start e));
     ConnectionMetadata.callId :=
       Some (StartEventData.callId (StartEvent.start e));
     ConnectionMetadata.headers := Some (StartEvent.extra_headers e) |}.

(** The metadata after one more dispatched value. *)
Definition metadata_step (m : option ConnectionMetadata.t) (data : json) :
  option ConnectionMetadata.t :=
  match route data with
  | ToStart e => Some (metadata_of e)
  | _ => m
  end.

(** The errors the dispatcher and the handlers make. *)
Definition failed_to_handle (error : Thrown) : Error :=
  {| message := Text "Failed to handle event: " :: describe error |}.

Definition failed_to_parse (error : Thrown) : Error :=
  {| message := Text "Failed to parse message: " :: describe error |}.

Definition unknown_event (ev : jsvalue) : Error :=
  {| message := [Text "Unknown event type: "; StringOf ev] |}.

(** What [handleError] is seen to do when every error callback returns. *)
Definition error_report (this : PlivoWebSocketServer) (error : Error) :
  list Action :=
  if 0 <? List.length (errorCallbacks this) then
    map (fun i => CallError i error) (seq 0 (List.length (errorCallbacks this)))
  else [Console error_ (Text "[PlivoWebSocketServer] Error:" :: message error)].

(** Every error callback returns. *)
Definition error_callbacks_return (this : PlivoWebSocketServer) : Prop :=
  forall cb error, In cb (errorCallbacks this) -> cb error = Normal.

Definition with_metadata (r : Routed) (c : Connection) : Connection :=
  match r with
  | ToStart e => set_metadata (Some (metadata_of e)) c
  | _ => c
  end.

(** What one dispatch is seen to do when every error callback returns. *)
Definition dispatch_trace (this : PlivoWebSocketServer) (data : json) :
  list Action :=
  let r := route data in
  Dispatch data
    :: flat_map (listener_call r) (seq 0 (calls_made (listeners this r)))
    ++ match r with
       | Failed t => error_report this (failed_to_handle t)
       | Unknown ev => error_report this (unknown_event ev)
       | _ => match first_throw (listeners this r) with
              | None => []
              | Some t => error_report this (failed_to_handle t)
              end
       end.

(** Calls that are no entry into the dispatcher. *)
Definition quiet (l : list Action) : Prop := dispatched l = [].

(** The metadata after the dispatches of a connection that was let in. *)
Definition metadata_after (ds : list json) : option ConnectionMetadata.t :=
  fold_left metadata_step ds (Some ConnectionMetadata.empty).

(** What holds of a connection at every point of its life. *)
Definition consistent (c : Connection) : Prop :=
  metadata c = (if listening c then metadata_after (dispatched (trace c))
                else None)
  /\ (isReady c = false -> dispatched (trace c) = [])
  /\ (listening c = false -> isReady c = false /\ awaiting c = None)
  /\ (isReady c = true -> awaiting c = None).

(** Two states of a connection that differ at most in the calls observed
    and in the metadata. *)
Definition same_state (c c' : Connection) : Prop :=
  listening c' = listening c /\ isReady c' = isReady c
  /\ messageBuffer c' = messageBuffer c /\ awaiting c' = awaiting c
  /\ readyState c' = readyState c.

(** What the [catch] block of the connection handler is seen to do. *)
Definition setup_failure (this : PlivoWebSocketServer) (error : Thrown) :
  list Action :=
  let err := match error with
             | ThrowError e => e
             | ThrowValue v => {| message := [StringOf v] |}
             end in
  Console error_
    (Text "[PlivoWebSocketServer] Connection setup failed:" :: message err)
    :: map (fun i => CallError i err) (seq 0 (List.length (errorCallbacks this)))
    ++ [WsClose 1011 "Connection setup failed"].

(** Two states of a connection in the same stage of its set-up. *)
Definition same_stage (c c' : Connection) : Prop :=
  listening c' = listening c /\ isReady c' = isReady c
  /\ awaiting c' = awaiting c.

(** A dispatched value that is processed as a [start] event. *)
Definition processed_start (data : json) : bool :=
  match route data with
  | ToStart _ => true
  | _ => false
  end.


(** ** Samples *)

Definition sample_callId : string := "123e4567-e89b-42d3-a456-426614174000".
Definition sample_streamId : string := "9b2c7f10-5a3e-4c1d-8f6a-0e1d2c3b4a59".
Definition other_streamId : string := "0f8fad5b-d9cb-469f-a165-70867728950e".

Definition start_payload (streamId : string) (sequenceNumber sampleRate : number) :
  json :=
  JObject [("event", JString "start");
           ("sequenceNumber", JNumber sequenceNumber);
           ("start", JObject [("callId", JString sample_callId);
                              ("streamId", JString streamId);
                              ("accountId", JString "MA0000000000");
                              ("tracks", JArray [JString "inbound"]);
                              ("mediaFormat",
                               JObject [("encoding", JString "audio/x-mulaw");
                                        ("sampleRate", JNumber sampleRate)])]);
           ("extra_headers", JString "")].

Definition start_event (streamId : string) (sequenceNumber sampleRate : number) :
  StartEvent.t :=
  {| StartEvent.event := "start";
     StartEvent.sequenceNumber := sequenceNumber;
     StartEvent.start :=
       {| StartEventData.callId := sample_callId;
          StartEventData.streamId := streamId;
          StartEventData.accountId := "MA0000000000";
          StartEventData.tracks := ["inbound"];
          StartEventData.mediaFormat :=
            {| MediaFormat.encoding := "audio/x-mulaw";
               MediaFormat.sampleRate := sampleRate |} |};
     StartEvent.extra_headers := "" |}.

Definition media_payload (payload : string) : json :=
  JObject [("sequenceNumber", JNumber (Finite 2));
           ("streamId", JString sample_streamId);
           ("event", JString "media");
           ("media", JObject [("track", JString "inbound");
                              ("timestamp", JString "20");
                              ("chunk", JNumber (Finite 1));
                              ("payload", JString payload)]);
           ("extra_headers", JString "")].

Definition media_event (payload : string) : MediaEvent.t :=
  {| MediaEvent.sequenceNumber := Finite 2;
     MediaEvent.streamId := sample_streamId;
     MediaEvent.event := "media";
     MediaEvent.media :=
       {| MediaEventData.track := "inbound";
          MediaEventData.timestamp := "20";
          MediaEventData.chunk := Finite 1;
          MediaEventData.payload := payload |};
     MediaEvent.extra_headers := "" |}.

Definition plain_request : IncomingMessage :=
  {| x_plivo_signature_v3 := None; x_plivo_signature_v3_nonce := None;
     host := Some "example.test"; url := Some "/stream"; method := Some "GET";
     encrypted := false |}.

(** A server that does not validate signatures, with the given connection,
    media and error callbacks and no other. *)
Definition server (connection : list ConnectionCallback)
  (media : list (Callback MediaEvent.t)) (errors : list (Callback Error)) :
  PlivoWebSocketServer :=
  {| validateSignatureEnabled := false; authToken := None;
     validateV3Signature := fun _ _ _ _ _ => inr true;
     connectionCallbacks := connection;
     startCallbacks := []; mediaCallbacks := media; dtmfCallbacks := [];
     playedStreamCallbacks := []; clearedAudioCallbacks := [];
     errorCallbacks := errors; closeCallbacks := [] |}.

(** A server that validates signatures. *)
Definition guarded_server : PlivoWebSocketServer :=
  {| validateSignatureEnabled := true; authToken := Some "token";
     validateV3Signature := fun _ _ _ _ _ => inr true;
     connectionCallbacks := [];
     startCallbacks := []; mediaCallbacks := []; dtmfCallbacks := [];
     playedStreamCallbacks := []; clearedAudioCallbacks := [];
     errorCallbacks := []; closeCallbacks := [] |}.

Definition resolves : ConnectionCallback := fun _ => Normal.


Definition returns {A} : Callback A := fun _ => Normal.

Definition throws {A} : Callback A :=
  fun _ => Throws (ThrowError {| message := [Text "listener failed"] |}).

Definition first_start : Event :=
  SocketMessage (JSONText (start_payload sample_streamId (Finite 1) (Finite 8000))).

Definition second_start : Event :=
  SocketMessage (JSONText (start_payload other_streamId (Finite 2) (Finite 8000))).

Definition bogus_payload : json := JObject [("event", JString "bogus")].

Definition listener_failed : Thrown :=
  ThrowError {| message := [Text "listener failed"] |}.




(** ** The outbound event schemas *)

Module PlayAudioEventData.
Record t := { contentType : string; sampleRate : number; payload : string }.
End PlayAudioEventData.

Module PlayAudioEvent.
Record t := { event : string; media : PlayAudioEventData.t }.
End PlayAudioEvent.

Module CheckpointEvent.
Record t := { event : string; streamId : string; name : string }.
End CheckpointEvent.

Module ClearAudioEvent.
Record t := { event : string; streamId : string }.
End ClearAudioEvent.

Definition PlayAudioEventDataSchema : Schema PlayAudioEventData.t :=
  z_object (fun o =>
    Valid PlayAudioEventData.Build_t
      <*> field o "contentType" z_string
      <*> field o "sampleRate" z_number
      <*> field o "payload" z_string).

Definition PlayAudioEventSchema : Schema PlayAudioEvent.t :=
  z_object (fun o =>
    Valid PlayAudioEvent.Build_t
      <*> field o "event" (z_literal "playAudio")
      <*> field o "media" PlayAudioEventDataSchema).

Definition CheckpointEventSchema : Schema CheckpointEvent.t :=
  z_object (fun o =>
    Valid CheckpointEvent.Build_t
      <*> field o "event" (z_literal "checkpoint")
      <*> field o "streamId" z_uuid
      <*> field o "name" z_string).

Definition ClearAudioEventSchema : Schema ClearAudioEvent.t :=
  z_object (fun o =>
    Valid ClearAudioEvent.Build_t
      <*> field o "event" (z_literal "clearAudio")
      <*> field o "streamId" z_uuid).

(** ** The inbound schemas, in the words of their shapes *)

(** A [media] payload that passes [MediaEventSchema]. *)
Definition media_ok (data : json) : bool :=
  let d := Some data in
  let m := prop d "media" in
  is_object d
  && is_finite_number (prop d "sequenceNumber")
  && is_uuid (prop d "streamId")
  && is_literal "media" (prop d "event")
  && (is_object m
      && is_string (prop m "track")
      && is_string (prop m "timestamp")
      && is_finite_number (prop m "chunk")
      && is_string (prop m "payload"))
  && is_string (prop d "extra_headers").

Inductive media_field : list PathSeg -> (jsvalue -> bool) -> Prop :=
| mfield_root : media_field [] is_object
| mfield_sequenceNumber : media_field [Key "sequenceNumber"] is_finite_number
| mfield_streamId : media_field [Key "streamId"] is_uuid
| mfield_event : media_field [Key "event"] (is_literal "media")
| mfield_media : media_field [Key "media"] is_object
| mfield_track : media_field [Key "media"; Key "track"] is_string
| mfield_timestamp : media_field [Key "media"; Key "timestamp"] is_string
| mfield_chunk : media_field [Key "media"; Key "chunk"] is_finite_number
| mfield_payload : media_field [Key "media"; Key "payload"] is_string
| mfield_extra_headers : media_field [Key "extra_headers"] is_string.

(** A [dtmf] payload that passes [DTMFEventSchema]. *)
Definition dtmf_ok (data : json) : bool :=
  let d := Some data in
  let m := prop d "dtmf" in
  is_object d
  && is_literal "dtmf" (prop d "event")
  && is_finite_number (prop d "sequenceNumber")
  && is_uuid (prop d "streamId")
  && (is_object m
      && is_string (prop m "track")
      && is_string (prop m "digit")
      && is_string (prop m "timestamp"))
  && is_string (prop d "extra_headers").

Inductive dtmf_field : list PathSeg -> (jsvalue -> bool) -> Prop :=
| dfield_root : dtmf_field [] is_object
| dfield_event : dtmf_field [Key "event"] (is_literal "dtmf")
| dfield_sequenceNumber : dtmf_field [Key "sequenceNumber"] is_finite_number
| dfield_streamId : dtmf_field [Key "streamId"] is_uuid
| dfield_dtmf : dtmf_field [Key "dtmf"] is_object
| dfield_track : dtmf_field [Key "dtmf"; Key "track"] is_string
| dfield_digit : dtmf_field [Key "dtmf"; Key "digit"] is_string
| dfield_timestamp : dtmf_field [Key "dtmf"; Key "timestamp"] is_string
| dfield_extra_headers : dtmf_field [Key "extra_headers"] is_string.

(** A [playedStream] payload that passes [PlayedStreamEventSchema]. *)
Definition playedStream_ok (data : json) : bool :=
  let d := Some data in
  is_object d
  && is_literal "playedStream" (prop d "event")
  && is_finite_number (prop d "sequenceNumber")
  && is_uuid (prop d "streamId")
  && is_string (prop d "name").

Inductive playedStream_field : list PathSeg -> (jsvalue -> bool) -> Prop :=
| pfield_root : playedStream_field [] is_object
| pfield_event : playedStream_field [Key "event"] (is_literal "playedStream")
| pfield_sequenceNumber :
    playedStream_field [Key "sequenceNumber"] is_finite_number
| pfield_streamId : playedStream_field [Key "streamId"] is_uuid
| pfield_name : playedStream_field [Key "name"] is_string.

(** A [clearedAudio] payload that passes [ClearedAudioEventSchema]. *)
Definition clearedAudio_ok (data : json) : bool :=
  let d := Some data in
  is_object d
  && is_literal "clearedAudio" (prop d "event")
  && is_finite_number (prop d "sequenceNumber")
  && is_uuid (prop d "streamId").

Inductive clearedAudio_field : list PathSeg -> (jsvalue -> bool) -> Prop :=
| cfield_root : clearedAudio_field [] is_object
| cfield_event : clearedAudio_field [Key "event"] (is_literal "clearedAudio")
| cfield_sequenceNumber :
    clearedAudio_field [Key "sequenceNumber"] is_finite_number
| cfield_streamId : clearedAudio_field [Key "streamId"] is_uuid.

(** ** Construction and registration *)

Module Options.
(** [PlivoWebSocketServerOptions], without the options of the transport. *)
Record t := { validateSignature : option bool; authToken : option string }.
End Options.

(** The constructor; [verifier] is the imported [validateV3Signature]. *)
Definition construct
  (verifier : string -> string -> string -> option string -> string -> Thrown + bool)
  (options : Options.t) : Thrown + PlivoWebSocketServer :=
  let validateSignatureEnabled :=
    match Options.validateSignature options with
    | Some b => b
    | None => false
    end in
  if validateSignatureEnabled && falsy (Options.authToken options) then
    inl (ThrowError
           {| message :=
                [Text "authToken is required when validateSignature is enabled"] |})
  else
    inr {| validateSignatureEnabled := validateSignatureEnabled;
           authToken := Options.authToken options;
           validateV3Signature := verifier;
           connectionCallbacks := []; startCallbacks := [];
           mediaCallbacks := []; dtmfCallbacks := [];
           playedStreamCallbacks := []; clearedAudioCallbacks := [];
           errorCallbacks := []; closeCallbacks := [] |}.

(** The registration methods; each returns the server, for chaining. *)
Module Register.

Definition onConnection (callback : ConnectionCallback)
  (this : PlivoWebSocketServer) : PlivoWebSocketServer :=
  {| validateSignatureEnabled := validateSignatureEnabled this;
     authToken := authToken this;
     validateV3Signature := validateV3Signature this;
     connectionCallbacks := connectionCallbacks this ++ [callback];
     startCallbacks := startCallbacks this;
     mediaCallbacks := mediaCallbacks this;
     dtmfCallbacks := dtmfCallbacks this;
     playedStreamCallbacks := playedStreamCallbacks this;
     clearedAudioCallbacks := clearedAudioCallbacks this;
     errorCallbacks := errorCallbacks this;
     closeCallbacks := closeCallbacks this |}.

Definition onStart (callback : Callback StartEvent.t)
  (this : PlivoWebSocketServer) : PlivoWebSocketServer :=
  {| validateSignatureEnabled := validateSignatureEnabled this;
     authToken := authToken this;
     validateV3Signature := validateV3Signature this;
     connectionCallbacks := connectionCallbacks this;
     startCallbacks := startCallbacks this ++ [callback];
     mediaCallbacks := mediaCallbacks this;
     dtmfCallbacks := dtmfCallbacks this;
     playedStreamCallbacks := playedStreamCallbacks this;
     clearedAudioCallbacks := clearedAudioCallbacks this;
     errorCallbacks := errorCallbacks this;
     closeCallbacks := closeCallbacks this |}.

Definition onMedia (callback : Callback MediaEvent.t)
  (this : PlivoWebSocketServer) : PlivoWebSocketServer :=
  {| validateSignatureEnabled := validateSignatureEnabled this;
     authToken := authToken this;
     validateV3Signature := validateV3Signature this;
     connectionCallbacks := connectionCallbacks this;
     startCallbacks := startCallbacks this;
     mediaCallbacks := mediaCallbacks this ++ [callback];
     dtmfCallbacks := dtmfCallbacks this;
     playedStreamCallbacks := playedStreamCallbacks this;
     clearedAudioCallbacks := clearedAudioCallbacks this;
     errorCallbacks := errorCallbacks this;
     closeCallbacks := closeCallbacks this |}.

Definition onDtmf (callback : Callback DTMFEvent.t)
  (this : PlivoWebSocketServer) : PlivoWebSocketServer :=
  {| validateSignatureEnabled := validateSignatureEnabled this;
     authToken := authToken this;
     validateV3Signature := validateV3Signature this;
     connectionCallbacks := connectionCallbacks this;
     startCallbacks := startCallbacks this;
     mediaCallbacks := mediaCallbacks this;
     dtmfCallbacks := dtmfCallbacks this ++ [callback];
     playedStreamCallbacks := playedStreamCallbacks this;
     clearedAudioCallbacks := clearedAudioCallbacks this;
     errorCallbacks := errorCallbacks this;
     closeCallbacks := closeCallbacks this |}.

Definition onPlayedStream (callback : Callback PlayedStreamEvent.t)
  (this : PlivoWebSocketServer) : PlivoWebSocketServer :=
  {| validateSignatureEnabled := validateSignatureEnabled this;
     authToken := authToken this;
     validateV3Signature := validateV3Signature this;
     connectionCallbacks := connectionCallbacks this;
     startCallbacks := startCallbacks this;
     mediaCallbacks := mediaCallbacks this;
     dtmfCallbacks := dtmfCallbacks this;
     playedStreamCallbacks := playedStreamCallbacks this ++ [callback];
     clearedAudioCallbacks := clearedAudioCallbacks this;
     errorCallbacks := errorCallbacks this;
     closeCallbacks := closeCallbacks this |}.

Definition onClearedAudio (callback : Callback ClearedAudioEvent.t)
  (this : PlivoWebSocketServer) : PlivoWebSocketServer :=
  {| validateSignatureEnabled := validateSignatureEnabled this;
     authToken := authToken this;
     validateV3Signature := validateV3Signature this;
     connectionCallbacks := connectionCallbacks this;
     startCallbacks := startCallbacks this;
     mediaCallbacks := mediaCallbacks this;
     dtmfCallbacks := dtmfCallbacks this;
     playedStreamCallbacks := playedStreamCallbacks this;
     clearedAudioCallbacks := clearedAudioCallbacks this ++ [callback];
     errorCallbacks := errorCallbacks this;
     closeCallbacks := closeCallbacks this |}.

Definition onError (callback : Callback Error)
  (this : PlivoWebSocketServer) : PlivoWebSocketServer :=
  {| validateSignatureEnabled := validateSignatureEnabled this;
     authToken := authToken this;
     validateV3Signature := validateV3Signature this;
     connectionCallbacks := connectionCallbacks this;
     startCallbacks := startCallbacks this;
     mediaCallbacks := mediaCallbacks this;
     dtmfCallbacks := dtmfCallbacks this;
     playedStreamCallbacks := playedStreamCallbacks this;
     clearedAudioCallbacks := clearedAudioCallbacks this;
     errorCallbacks := errorCallbacks this ++ [callback];
     closeCallbacks := closeCallbacks this |}.

Definition onClose (callback : Callback unit)
  (this : PlivoWebSocketServer) : PlivoWebSocketServer :=
  {| validateSignatureEnabled := validateSignatureEnabled this;
     authToken := authToken this;
     validateV3Signature := validateV3Signature this;
     connectionCallbacks := connectionCallbacks this;
     startCallbacks := startCallbacks this;
     mediaCallbacks := mediaCallbacks this;
     dtmfCallbacks := dtmfCallbacks this;
     playedStreamCallbacks := playedStreamCallbacks this;
     clearedAudioCallbacks := clearedAudioCallbacks this;
     errorCallbacks := errorCallbacks this;
     closeCallbacks := closeCallbacks this ++ [callback] |}.

End Register.

(** One call of a registration method, and a chain of them. *)
Inductive Registration :=
| RegConnection (callback : ConnectionCallback)
| RegStart (callback : Callback StartEvent.t)
| RegMedia (callback : Callback MediaEvent.t)
| RegDtmf (callback : Callback DTMFEvent.t)
| RegPlayedStream (callback : Callback PlayedStreamEvent.t)
| RegClearedAudio (callback : Callback ClearedAudioEvent.t)
| RegError (callback : Callback Error)
| RegClose (callback : Callback unit).

Definition register (this : PlivoWebSocketServer) (r : Registration) :
  PlivoWebSocketServer :=
  match r with
  | RegConnection cb => Register.onConnection cb this
  | RegStart cb => Register.onStart cb this
  | RegMedia cb => Register.onMedia cb this
  | RegDtmf cb => Register.onDtmf cb this
  | RegPlayedStream cb => Register.onPlayedStream cb this
  | RegClearedAudio cb => Register.onClearedAudio cb this
  | RegError cb => Register.onError cb this
  | RegClose cb => Register.onClose cb this
  end.

Definition chain (this : PlivoWebSocketServer) (rs : list Registration) :
  PlivoWebSocketServer :=
  fold_left register rs this.

(** The callbacks of one kind in a chain, in the order of the chain. *)
Definition registered {A} (pick : Registration -> option A)
  (rs : list Registration) : list A :=
  flat_map (fun r => match pick r with Some cb => [cb] | None => [] end) rs.

Definition pick_connection (r : Registration) : option ConnectionCallback :=
  match r with RegConnection cb => Some cb | _ => None end.
Definition pick_start (r : Registration) : option (Callback StartEvent.t) :=
  match r with RegStart cb => Some cb | _ => None end.
Definition pick_media (r : Registration) : option (Callback MediaEvent.t) :=
  match r with RegMedia cb => Some cb | _ => None end.
Definition pick_dtmf (r : Registration) : option (Callback DTMFEvent.t) :=
  match r with RegDtmf cb => Some cb | _ => None end.
Definition pick_playedStream (r : Registration) :
  option (Callback PlayedStreamEvent.t) :=
  match r with RegPlayedStream cb => Some cb | _ => None end.
Definition pick_clearedAudio (r : Registration) :
  option (Callback ClearedAudioEvent.t) :=
  match r with RegClearedAudio cb => Some cb | _ => None end.
Definition pick_error (r : Registration) : option (Callback Error) :=
  match r with RegError cb => Some cb | _ => None end.
Definition pick_close (r : Registration) : option (Callback unit) :=
  match r with RegClose cb => Some cb | _ => None end.

(** ** Reading the calls of a run *)

Definition is_send (a : Action) : bool :=
  match a with WsSend _ => true | _ => false end.

Definition is_uncaught (a : Action) : bool :=
  match a with Uncaught _ => true | _ => false end.

(** A report of [handleError]: a call of an error callback, or a line on the
    console. *)
Definition is_report (a : Action) : bool :=
  match a with CallError _ _ | Console _ _ => true | _ => false end.

(** What the dispatcher may be seen to do. *)
Definition is_dispatching (a : Action) : bool :=
  match a with
  | Dispatch _ | CallStart _ _ | CallMedia _ _ | CallDtmf _ _
  | CallPlayedStream _ _ | CallClearedAudio _ _ | CallError _ _
  | Console _ _ => true
  | _ => false
  end.

(** The closes of the socket by the server, in order. *)
Definition closes (t : list Action) : list (N * string) :=
  flat_map (fun a => match a with
                     | WsClose code reason => [(code, reason)]
                     | _ => []
                     end) t.

(** The connection callbacks called, by index, in order. *)
Definition connection_calls (t : list Action) : list nat :=
  flat_map (fun a => match a with CallConnection i => [i] | _ => [] end) t.

(** How many times an awaited connection callback settled. *)
Definition settlements (events : list Event) : nat :=
  List.length (filter (fun e => match e with Settled => true | _ => false end)
                 events).

(** The verdict of [validateConnectionSignature]: both headers are there and
    not empty, and the verifier answers true for the method (GET when the
    request has none), the address made of the scheme, the host and the path
    ([/] when the request has none), the nonce, the token and the
    signature. *)
Definition signature_verdict (this : PlivoWebSocketServer)
  (request : IncomingMessage) : bool :=
  match x_plivo_signature_v3 request, x_plivo_signature_v3_nonce request with
  | Some signature, Some nonce =>
      negb (String.eqb signature "") && negb (String.eqb nonce "")
      && match validateV3Signature this
                 (match method request with Some m => m | None => "GET" end)
                 ((if encrypted request then "https" else "http")
                    ++ "://" ++ or_else (host request) ""
                    ++ or_else (url request) "/")%string
                 nonce (authToken this) signature with
         | inr answer => answer
         | inl _ => false
         end
  | _, _ => false
  end.

(** The connection is let in. *)
Definition admits (this : PlivoWebSocketServer) (request : IncomingMessage) :
  bool :=
  negb (validateSignatureEnabled this) || signature_verdict this request.

(** [c'] is [c] after some calls, all of them in [P], and possibly with other
    metadata. *)
Definition touches (P : Action -> bool) (c c' : Connection) : Prop :=
  exists l m, c' = log l (set_metadata m c) /\ forallb P l = true.

(** ** The example server: the history of the conversation *)

Inductive Role := user | assistant.

(** A message of the history; the content of a reply may be [null]. *)
Record ChatMessage := { role : Role; content : option string }.

(** [addMessageAndGetResponse] up to its [await]: the oldest message is
    dropped when ten are kept, and the user's message is added. *)
Definition add_user_message (message : string) (messages : list ChatMessage) :
  list ChatMessage :=
  let messages := if 10 <=? List.length messages then tl messages else messages in
  messages ++ [{| role := user; content := Some message |}].

(** [addMessageAndGetResponse] after its [await], with the content of the
    first choice of the response. *)
Definition add_assistant_reply (reply : option string)
  (messages : list ChatMessage) : list ChatMessage :=
  let messages := if List.length messages =? 10 then tl messages else messages in
  messages ++ [{| role := assistant; content := reply |}].

(** The two halves of a call, as they may interleave with those of other
    calls. *)
Inductive HistoryStep :=
| Asked (message : string)
| Answered (reply : option string).

Definition history_step (messages : list ChatMessage) (s : HistoryStep) :
  list ChatMessage :=
  match s with
  | Asked message => add_user_message message messages
  | Answered reply => add_assistant_reply reply messages
  end.
(** * Properties *)

Unset Implicit Arguments.

(** ** Base64 *)

Lemma char_of_table :
  forallb (fun v => match Base64.unbase64 (Base64.char_of v) with
                    | Some w => N.eqb w v
                    | None => false
                    end
                    && negb (Ascii.eqb (Base64.char_of v) "="%char))
          (map N.of_nat (seq 0 64)) = true.
Proof. vm_compute. reflexivity. Qed.

Lemma char_of_legal (v : N) :
  (v < 64)%N ->
  Base64.unbase64 (Base64.char_of v) = Some v /\
  Ascii.eqb (Base64.char_of v) "="%char = false.
Proof.
  intros Hv.
  pose proof char_of_table as T.
  rewrite forallb_forall in T.
  specialize (T v).
  assert (Hin : In v (map N.of_nat (seq 0 64))).
  { apply in_map_iff. exists (N.to_nat v). split.
    - apply N2Nat.id.
    - apply in_seq. lia. }
  specialize (T Hin).
  apply andb_true_iff in T. destruct T as [T1 T2].
  destruct (Base64.unbase64 (Base64.char_of v)) as [w|]; [|discriminate].
  apply N.eqb_eq in T1. subst w.
  apply negb_true_iff in T2. auto.
Qed.

Lemma sextets_char (v : N) (s : string) :
  (v < 64)%N ->
  Base64.sextets (String (Base64.char_of v) s) = v :: Base64.sextets s.
Proof.
  intros Hv. destruct (char_of_legal v Hv) as [H1 H2].
  simpl. rewrite H2, H1. reflexivity.
Qed.

Lemma byte_of_to_N (b : byte) : Base64.byte_of (Byte.to_N b) = b.
Proof. unfold Base64.byte_of. rewrite Byte.of_to_N. reflexivity. Qed.

Lemma to_N_lt (b : byte) : (Byte.to_N b < 256)%N.
Proof. pose proof (Byte.to_N_bounded b). lia. Qed.

(** Linear arithmetic with division by constants. *)
Ltac div_lia := zify; Z.to_euclidean_division_equations; lia.

Lemma group_lt (a b c : byte) : (Base64.group a b c < 16777216)%N.
Proof.
  unfold Base64.group.
  pose proof (to_N_lt a). pose proof (to_N_lt b). pose proof (to_N_lt c). div_lia.
Qed.

Lemma sextets_quad (n : N) (s : string) :
  (n < 16777216)%N ->
  Base64.sextets (Base64.quad n ++ s)%string =
  (n / 262144 :: (n / 4096) mod 64 :: (n / 64) mod 64 :: n mod 64
     :: Base64.sextets s)%N.
Proof.
  intros Hn. unfold Base64.quad. cbn [String.append].
  rewrite !sextets_char; try reflexivity; div_lia.
Qed.

Lemma regroup (a b c : byte) :
  let n := Base64.group a b c in
  (n / 262144 * 262144 + (n / 4096) mod 64 * 4096 + (n / 64) mod 64 * 64
     + n mod 64 = n)%N.
Proof. intros n. div_lia. Qed.

Lemma group_bytes (a b c : byte) :
  let n := Base64.group a b c in
  Base64.byte_of (n / 65536) = a /\
  Base64.byte_of ((n / 256) mod 256) = b /\
  Base64.byte_of (n mod 256) = c.
Proof.
  intros n. subst n. unfold Base64.group.
  pose proof (to_N_lt a). pose proof (to_N_lt b). pose proof (to_N_lt c).
  repeat split.
  - replace ((_ + _ + _) / 65536)%N with (Byte.to_N a) by div_lia.
    apply byte_of_to_N.
  - replace (((_ + _ + _) / 256) mod 256)%N with (Byte.to_N b) by div_lia.
    apply byte_of_to_N.
  - replace ((_ + _ + _) mod 256)%N with (Byte.to_N c) by div_lia.
    apply byte_of_to_N.
Qed.

(** Lists taken three elements at a time. *)
Lemma list_ind3 (A : Type) (P : list A -> Prop) :
  P [] -> (forall a, P [a]) -> (forall a b, P [a; b]) ->
  (forall a b c l, P l -> P (a :: b :: c :: l)) ->
  forall l, P l.
Proof.
  intros H0 H1 H2 H3.
  assert (H : forall l, P l /\ (forall a, P (a :: l)) /\ (forall a b, P (a :: b :: l))).
  { induction l as [|x l [IH0 [IH1 IH2]]].
    - auto.
    - repeat split; auto. }
  intros l. apply H.
Qed.

Lemma base64_roundtrip (bs : Buffer) : Base64.decode (Base64.encode bs) = bs.
Proof.
  unfold Base64.decode.
  induction bs as [|a|a b|a b c rest IH] using list_ind3.
  - reflexivity.
  - cbn [Base64.encode].
    pose proof (group_lt a x00 x00) as Hn.
    destruct (group_bytes a x00 x00) as [Ha _].
    cbv zeta. set (n := Base64.group a x00 x00) in *.
    rewrite !sextets_char by div_lia. cbn [Base64.sextets Ascii.eqb Base64.bytes_of].
    simpl Base64.sextets. cbv zeta.
    replace (n / 262144 * 262144 + (n / 4096) mod 64 * 4096)%N with n.
    + now rewrite Ha.
    + subst n. unfold Base64.group. simpl Byte.to_N.
      pose proof (to_N_lt a). div_lia.
  - cbn [Base64.encode].
    pose proof (group_lt a b x00) as Hn.
    destruct (group_bytes a b x00) as [Ha [Hb _]].
    cbv zeta. set (n := Base64.group a b x00) in *.
    rewrite !sextets_char by div_lia.
    simpl Base64.sextets. cbn [Base64.bytes_of]. cbv zeta.
    replace (n / 262144 * 262144 + (n / 4096) mod 64 * 4096
               + (n / 64) mod 64 * 64)%N with n.
    + now rewrite Ha, Hb.
    + subst n. unfold Base64.group. simpl Byte.to_N.
      pose proof (to_N_lt a). pose proof (to_N_lt b). div_lia.
  - cbn [Base64.encode].
    rewrite sextets_quad by apply group_lt.
    cbn [Base64.bytes_of]. cbv zeta.
    rewrite regroup.
    destruct (group_bytes a b c) as [Ha [Hb Hc]].
    rewrite Ha, Hb, Hc, IH. reflexivity.
Qed.

(** ** The schema library *)

Section Checks.

Variable root : jsvalue.
Variable F : list PathSeg -> (jsvalue -> bool) -> Prop.

Lemma checks_valid (A : Type) (a : A) : checks true (offends root F) (Valid a).
Proof. reflexivity. Qed.

Lemma checks_ap (A B : Type) (b1 b2 : bool) (Q : ZodIssue -> Prop)
  (f : ZodResult (A -> B)) (x : ZodResult A) :
  checks b1 Q f -> checks b2 Q x -> checks (b1 && b2) Q (f <*> x).
Proof.
  destruct f as [g|i], x as [a|j]; unfold checks; simpl.
  - intros -> ->. reflexivity.
  - intros -> [-> [Hj HQ]]. auto.
  - intros [-> [Hi HQ]] _. auto.
  - intros [-> [Hi HQ]] [_ [_ HQ']]. repeat split.
    + destruct i; [congruence | discriminate].
    + apply Forall_app. auto.
Qed.

Lemma checks_string : F [] is_string ->
  checks (is_string root) (offends root F) (z_string root).
Proof.
  intros HF.
  destruct root as [[| | |s| |]|]; unfold checks; simpl; auto;
    (repeat split; [discriminate|]; constructor; [|constructor];
     exists is_string; unfold checks; simpl; auto).
Qed.

Lemma checks_number : F [] is_finite_number ->
  checks (is_finite_number root) (offends root F) (z_number root).
Proof.
  intros HF.
  destruct root as [[| |[q|b]| | |]|]; unfold checks; simpl; auto;
    (repeat split; [discriminate|]; constructor; [|constructor];
     exists is_finite_number; unfold checks; simpl; auto).
Qed.

Lemma checks_uuid : F [] is_uuid ->
  checks (is_uuid root) (offends root F) (z_uuid root).
Proof.
  intros HF.
  destruct root as [[| | |s| |]|]; unfold checks; simpl;
    try (repeat split; [discriminate|]; constructor; [|constructor];
         exists is_uuid; unfold checks; simpl; auto).
  destruct (uuid_regex s) eqn:E; unfold checks; simpl; auto.
  repeat split; [discriminate|]. constructor; [|constructor].
  exists is_uuid. simpl. auto.
Qed.

Lemma checks_literal (lit : string) : F [] (is_literal lit) ->
  checks (is_literal lit root) (offends root F) (z_literal lit root).
Proof.
  intros HF.
  destruct root as [[| | |s| |]|]; unfold checks; simpl;
    try (repeat split; [discriminate|]; constructor; [|constructor];
         exists (is_literal lit); unfold checks; simpl; auto).
  destruct (String.eqb s lit) eqn:E; unfold checks; simpl; auto.
  repeat split; [discriminate|]. constructor; [|constructor].
  exists (is_literal lit). simpl. auto.
Qed.

Lemma checks_object (A : Type) (ok : bool)
  (body : list (string * json) -> ZodResult A) :
  F [] is_object ->
  (forall props, root = Some (JObject props) ->
                 checks ok (offends root F) (body props)) ->
  checks (is_object root && ok) (offends root F) (z_object body root).
Proof.
  intros HF Hbody.
  destruct root as [[| | | | |props]|] eqn:E; unfold checks; simpl;
    try (repeat split; [discriminate|]; constructor; [|constructor];
         exists is_object; unfold checks; simpl; auto).
  apply Hbody. reflexivity.
Qed.

End Checks.

Lemma checks_at_seg (A : Type) (root sub : jsvalue) (seg : PathSeg)
  (F : list PathSeg -> (jsvalue -> bool) -> Prop) (ok : bool)
  (r : ZodResult A) :
  at_path root [seg] = sub ->
  checks ok (offends sub (fun p rule => F (seg :: p) rule)) r ->
  checks ok (offends root F) (at_seg seg r).
Proof.
  intros Hsub. destruct r as [a|issues]; unfold checks; simpl; auto.
  intros [-> [Hne HQ]]. repeat split.
  - destruct issues; [congruence | discriminate].
  - apply Forall_map. eapply Forall_impl; [|exact HQ].
    intros i [rule [Hr Hv]]. exists rule. simpl. split; auto.
    rewrite <- Hv, <- Hsub. destruct seg; reflexivity.
Qed.

Lemma checks_field (A : Type) (props : list (string * json)) (k : string)
  (F : list PathSeg -> (jsvalue -> bool) -> Prop) (ok : bool) (s : Schema A) :
  checks ok (offends (assoc k props) (fun p rule => F (Key k :: p) rule))
         (s (assoc k props)) ->
  checks ok (offends (Some (JObject props)) F) (field props k s).
Proof. intros H. unfold field. eapply checks_at_seg; eauto. Qed.

Lemma checks_each (root : jsvalue)
  (F : list PathSeg -> (jsvalue -> bool) -> Prop) (items : list json) :
  forall i0,
    (forall j, F [Index j] is_string) ->
    (forall j x, nth_error items j = Some x -> item root (i0 + j) = Some x) ->
    checks (forallb (fun x => is_string (Some x)) items) (offends root F)
           (each z_string i0 items).
Proof.
  induction items as [|x rest IH]; intros i0 HF Hnth.
  - reflexivity.
  - cbn [each forallb].
    rewrite <- (andb_true_l (is_string (Some x))).
    apply checks_ap; [apply checks_ap; [apply checks_valid|]|].
    + eapply checks_at_seg with (sub := Some x).
      * simpl. rewrite <- (Nat.add_0_r i0). apply Hnth. reflexivity.
      * apply checks_string. apply HF.
    + apply IH; auto. intros j y Hj.
      rewrite Nat.add_succ_comm. apply Hnth. exact Hj.
Qed.

Lemma checks_strings (root : jsvalue)
  (F : list PathSeg -> (jsvalue -> bool) -> Prop) :
  F [] is_array -> (forall j, F [Index j] is_string) ->
  checks (is_strings root) (offends root F) (z_array z_string root).
Proof.
  intros HA HI.
  destruct root as [[| | | |items|]|] eqn:E; unfold checks; simpl;
    try (repeat split; [discriminate|]; constructor; [|constructor];
         exists is_array; unfold checks; simpl; auto).
  rewrite <- E. apply checks_each; auto. subst. auto.
Qed.

Lemma start_ok_shape (data : json) :
  start_ok data =
  (let d := Some data in
   let s := prop d "start" in
   let f := prop s "mediaFormat" in
   is_object d
   && (true
       && is_literal "start" (prop d "event")
       && is_finite_number (prop d "sequenceNumber")
       && (is_object s
           && (true
               && is_uuid (prop s "callId")
               && is_uuid (prop s "streamId")
               && is_string (prop s "accountId")
               && is_strings (prop s "tracks")
               && (is_object f
                   && (true
                       && is_string (prop f "encoding")
                       && is_finite_number (prop f "sampleRate")))))
       && is_string (prop d "extra_headers"))).
Proof. unfold start_ok. cbv zeta. btauto. Qed.

Lemma StartEventSchema_checks (data : json) :
  checks (start_ok data) (names_offending_field data)
         (StartEventSchema (Some data)).
Proof.
  rewrite start_ok_shape. cbv zeta.
  unfold StartEventSchema, StartEventDataSchema.
  change (names_offending_field data) with (offends (Some data) start_field).
  apply checks_object; [constructor|]. intros props E. rewrite E.
  cbn [prop].
  repeat apply checks_ap; try apply checks_valid; apply checks_field.
  - apply checks_literal. constructor.
  - apply checks_number. constructor.
  - apply checks_object; [constructor|]. intros sprops Es. rewrite Es.
    cbn [prop].
    repeat apply checks_ap; try apply checks_valid; apply checks_field.
    + apply checks_uuid. constructor.
    + apply checks_uuid. constructor.
    + apply checks_string. constructor.
    + apply checks_strings; constructor.
    + apply checks_object; [constructor|]. intros fprops Ef. rewrite Ef.
      cbn [prop].
      repeat apply checks_ap; try apply checks_valid; apply checks_field.
      * apply checks_string. constructor.
      * apply checks_number. constructor.
  - apply checks_string. constructor.
Qed.

Lemma ap_valid (A B : Type) (f : ZodResult (A -> B)) (x : ZodResult A) (b : B) :
  f <*> x = Valid b -> exists g a, f = Valid g /\ x = Valid a /\ b = g a.
Proof.
  destruct f as [g|i], x as [a|j]; simpl; try discriminate.
  intros [= <-]. eauto.
Qed.

Lemma field_valid (A : Type) (props : list (string * json)) (k : string)
  (s : Schema A) (a : A) :
  field props k s = Valid a -> s (assoc k props) = Valid a.
Proof. unfold field, at_seg. destruct (s (assoc k props)); congruence. Qed.

Lemma z_string_valid (v : jsvalue) (s : string) :
  z_string v = Valid s -> v = Some (JString s).
Proof. destruct v as [[| | |s'| |]|]; simpl; congruence. Qed.

Lemma z_number_valid (v : jsvalue) (n : number) :
  z_number v = Valid n -> v = Some (JNumber n) /\ exists q, n = Finite q.
Proof.
  destruct v as [[| |[q|b]| | |]|]; simpl; try discriminate.
  intros [= <-]. eauto.
Qed.

Lemma z_uuid_valid (v : jsvalue) (s : string) :
  z_uuid v = Valid s -> v = Some (JString s) /\ uuid_regex s = true.
Proof.
  destruct v as [[| | |s'| |]|]; simpl; try discriminate.
  destruct (uuid_regex s') eqn:E; [|discriminate]. intros [= <-]. auto.
Qed.

Lemma z_literal_valid (lit : string) (v : jsvalue) (s : string) :
  z_literal lit v = Valid s -> v = Some (JString lit) /\ s = lit.
Proof.
  destruct v as [[| | |s'| |]|]; simpl; try discriminate.
  destruct (String.eqb s' lit) eqn:E; [|discriminate].
  apply String.eqb_eq in E. intros [= <-]. subst. auto.
Qed.

Lemma z_object_valid (A : Type) (body : list (string * json) -> ZodResult A)
  (v : jsvalue) (a : A) :
  z_object body v = Valid a ->
  exists props, v = Some (JObject props) /\ body props = Valid a.
Proof. destruct v as [[| | | | |props]|]; simpl; try discriminate. eauto. Qed.

Lemma each_valid (items : list json) :
  forall i l, each z_string i items = Valid l -> items = map JString l.
Proof.
  induction items as [|x rest IH]; intros i l; cbn [each].
  - intros [= <-]. reflexivity.
  - intros H. apply ap_valid in H. destruct H as [g [tl [H1 [H2 ->]]]].
    apply ap_valid in H1. destruct H1 as [g' [hd [H0 [H1 ->]]]].
    injection H0 as <-.
    unfold at_seg in H1. destruct (z_string (Some x)) eqn:E; [|discriminate].
    injection H1 as ->. apply z_string_valid in E. injection E as ->.
    simpl. f_equal. eapply IH; eauto.
Qed.

Lemma z_strings_valid (v : jsvalue) (l : list string) :
  z_array z_string v = Valid l -> v = Some (JArray (map JString l)).
Proof.
  destruct v as [[| | | |items|]|]; simpl; try discriminate.
  intros H. apply each_valid in H. congruence.
Qed.

(** Peel the checked properties off a successful object check. *)
Ltac peel H :=
  repeat match type of H with
         | _ <*> _ = Valid _ =>
             let g := fresh "g" in
             let a := fresh "a" in
             let Hf := fresh "Hf" in
             let Ha := fresh "Ha" in
             apply ap_valid in H; destruct H as [g [a [Hf [Ha ->]]]];
             apply field_valid in Ha; rename Hf into H
         end;
  injection H as <-.

Ltac read_fields :=
  repeat match goal with
         | H : z_string _ = Valid _ |- _ => apply z_string_valid in H
         | H : z_number _ = Valid _ |- _ =>
             apply z_number_valid in H; destruct H as [H _]
         | H : z_uuid _ = Valid _ |- _ =>
             apply z_uuid_valid in H; destruct H as [H ?]
         | H : z_literal _ _ = Valid _ |- _ =>
             apply z_literal_valid in H; destruct H as [H ->]
         | H : z_array z_string _ = Valid _ |- _ => apply z_strings_valid in H
         end.

(** The event a successful check returns holds the values of the payload. *)
Lemma StartEventSchema_typed (data : json) (ev : StartEvent.t) :
  StartEventSchema (Some data) = Valid ev ->
  let d := Some data in
  let s := prop d "start" in
  let f := prop s "mediaFormat" in
  let e := StartEvent.start ev in
  let m := StartEventData.mediaFormat e in
  prop d "event" = Some (JString "start") /\
  StartEvent.event ev = "start" /\
  prop d "sequenceNumber" = Some (JNumber (StartEvent.sequenceNumber ev)) /\
  prop d "extra_headers" = Some (JString (StartEvent.extra_headers ev)) /\
  prop s "callId" = Some (JString (StartEventData.callId e)) /\
  uuid_regex (StartEventData.callId e) = true /\
  prop s "streamId" = Some (JString (StartEventData.streamId e)) /\
  uuid_regex (StartEventData.streamId e) = true /\
  prop s "accountId" = Some (JString (StartEventData.accountId e)) /\
  prop s "tracks" = Some (JArray (map JString (StartEventData.tracks e))) /\
  prop f "encoding" = Some (JString (MediaFormat.encoding m)) /\
  prop f "sampleRate" = Some (JNumber (MediaFormat.sampleRate m)).
Proof.
  intros H. unfold StartEventSchema in H.
  apply z_object_valid in H. destruct H as [props [[= ->] H]].
  peel H.
  match goal with
  | H : StartEventDataSchema _ = Valid _ |- _ =>
      unfold StartEventDataSchema in H; apply z_object_valid in H;
      destruct H as [sprops [Hs H]]; peel H
  end.
  match goal with
  | H : z_object _ _ = Valid _ |- _ =>
      apply z_object_valid in H; destruct H as [fprops [Hf H]]; peel H
  end.
  read_fields.
  cbv zeta. cbn [prop StartEvent.start StartEvent.event
                 StartEvent.sequenceNumber StartEvent.extra_headers
                 StartEventData.callId StartEventData.streamId
                 StartEventData.accountId StartEventData.tracks
                 StartEventData.mediaFormat MediaFormat.encoding
                 MediaFormat.sampleRate].
  rewrite Hs. cbn [prop]. rewrite Hf. cbn [prop].
  repeat split; assumption.
Qed.

(** C9 (as amended): a decoded value passes [StartEventSchema] exactly when
    it is an object whose [event] is the string start, whose
    [sequenceNumber] is a finite number, whose [extra_headers] is a string
    and whose [start] is an object with [callId] and [streamId] in the
    identifier format, [accountId] a string, [tracks] an array of strings and
    [mediaFormat] an object with [encoding] a string and [sampleRate] a
    finite number (of any sign, whole or not); the event returned holds
    those values.  Otherwise the check fails with at least one issue, and the
    path of every issue leads to a field of the payload that breaks what the
    schema asks of it. *)
Theorem StartEventSchema_verdict (data : json) :
  match StartEventSchema (Some data) with
  | Valid ev =>
      start_ok data = true /\
      at_path (Some data) [Key "sequenceNumber"]
        = Some (JNumber (StartEvent.sequenceNumber ev)) /\
      at_path (Some data) [Key "start"; Key "mediaFormat"; Key "sampleRate"]
        = Some (JNumber (MediaFormat.sampleRate
                           (StartEventData.mediaFormat (StartEvent.start ev)))) /\
      at_path (Some data) [Key "start"; Key "streamId"]
        = Some (JString (StartEventData.streamId (StartEvent.start ev))) /\
      at_path (Some data) [Key "start"; Key "callId"]
        = Some (JString (StartEventData.callId (StartEvent.start ev))) /\
      at_path (Some data) [Key "start"; Key "accountId"]
        = Some (JString (StartEventData.accountId (StartEvent.start ev))) /\
      at_path (Some data) [Key "start"; Key "tracks"]
        = Some (JArray (map JString
                          (StartEventData.tracks (StartEvent.start ev)))) /\
      at_path (Some data) [Key "start"; Key "mediaFormat"; Key "encoding"]
        = Some (JString (MediaFormat.encoding
                           (StartEventData.mediaFormat (StartEvent.start ev)))) /\
      at_path (Some data) [Key "extra_headers"]
        = Some (JString (StartEvent.extra_headers ev))
  | Invalid issues =>
      start_ok data = false /\ issues <> [] /\
      Forall (names_offending_field data) issues
  end.
Proof.
  pose proof (StartEventSchema_checks data) as C.
  destruct (StartEventSchema (Some data)) as [ev|issues] eqn:E.
  - split; [exact C|].
    pose proof (StartEventSchema_typed data ev E) as T. cbv zeta in T.
    cbn [at_path]. intuition.
  - exact C.
Qed.

(** C9, as stated, fails: a [start] payload whose [sampleRate] is -8000 and
    whose [sequenceNumber] is 3/2 passes the schema. *)
Lemma StartEventSchema_takes_any_number :
  StartEventSchema
    (Some (start_payload sample_streamId (Finite (3 # 2)) (Finite (-8000 # 1))))
  = Valid (start_event sample_streamId (Finite (3 # 2)) (Finite (-8000 # 1)))
  /\ is_positive_integer (Finite (-8000 # 1)) = false
  /\ is_integer (Finite (3 # 2)) = false.
Proof. repeat split. Qed.

(** ** Effects *)

Lemma log_nil (c : Connection) : log [] c = c.
Proof. destruct c. unfold log, set_trace. simpl. rewrite app_nil_r. reflexivity. Qed.

Lemma log_log (l l' : list Action) (c : Connection) :
  log l' (log l c) = log (l ++ l') c.
Proof. unfold log, set_trace. simpl. rewrite app_assoc. reflexivity. Qed.

Lemma dispatched_app (t u : list Action) :
  dispatched (t ++ u) = dispatched t ++ dispatched u.
Proof. apply flat_map_app. Qed.

Lemma flat_map_single (A B : Type) (g : A -> B) (l : list A) :
  flat_map (fun x => [g x]) l = map g l.
Proof. induction l; simpl; congruence. Qed.

Lemma forEach_calls {A : Type} (act : nat -> Action) (f : A -> Completion)
  (l : list A) :
  forall i c,
    forEach_from i l (fun j cb => call (act j) (f cb)) c =
    (match first_throw (map f l) with
     | None => Ret tt
     | Some t => Exn t
     end,
     log (map act (seq i (calls_made (map f l)))) c).
Proof.
  induction l as [|x rest IH]; intros i c.
  - simpl. rewrite log_nil. reflexivity.
  - cbn [forEach_from map first_throw calls_made].
    unfold bind at 1. unfold call at 1. unfold bind at 1.
    change (emit (act i) c) with (Ret tt, log [act i] c).
    destruct (f x) as [|t].
    + unfold ret at 1. rewrite IH. rewrite log_log. reflexivity.
    + reflexivity.
Qed.

Lemma log_set_metadata_log (l l' : list Action) (m : option ConnectionMetadata.t)
  (c : Connection) :
  log l (set_metadata m (log l' c)) = log (l' ++ l) (set_metadata m c).
Proof. unfold log, set_trace, set_metadata. simpl. rewrite app_assoc. reflexivity. Qed.

Ltac dispatch_case :=
  unfold bind at 1; unfold parse at 1; unfold checked;
  match goal with
  | |- context [match ?S (Some ?d) with _ => _ end] =>
      destruct (S (Some d)) as [e|issues]
  end;
  [ unfold ret at 1; cbv iota beta zeta;
    try (unfold bind at 1; unfold modify at 1; cbv iota beta);
    unfold forEach; rewrite forEach_calls;
    cbv beta iota delta [listeners listener_call with_metadata];
    rewrite flat_map_single;
    try rewrite log_set_metadata_log; try rewrite log_log;
    unfold Callback;
    match goal with
    | |- context [first_throw ?l] => destruct (first_throw l)
    end; reflexivity
  | reflexivity ].

Lemma handleIncomingEvent_eq (this : PlivoWebSocketServer) (data : json)
  (c : Connection) :
  handleIncomingEvent this data c =
  let r := route data in
  let c1 := log (Dispatch data
                   :: flat_map (listener_call r)
                        (seq 0 (calls_made (listeners this r))))
                (with_metadata r c) in
  match r with
  | Failed t => handleError this (failed_to_handle t) c1
  | Unknown ev =>
      try_catch (handleError this (unknown_event ev))
                (fun t => handleError this (failed_to_handle t)) c1
  | _ =>
      match first_throw (listeners this r) with
      | None => (Ret tt, c1)
      | Some t => handleError this (failed_to_handle t) c1
      end
  end.
Proof.
  unfold handleIncomingEvent.
  unfold bind at 1. change (emit (Dispatch data) c) with (Ret tt, log [Dispatch data] c).
  cbv iota beta.
  unfold try_catch at 1. unfold bind at 1. unfold gets at 1. cbv iota beta.
  unfold bind at 1.
  destruct data as [|b|n|s|items|props].
  1: reflexivity.
  all: unfold route; cbn [data_event prop]; unfold ret at 1; cbv iota beta zeta.
  1-4: reflexivity.
  destruct (case_of (assoc "event" props)) as [[| | | |]|].
  1-5: dispatch_case.
  reflexivity.
Qed.

Lemma handleError_eq (this : PlivoWebSocketServer) (error : Error)
  (c : Connection) :
  handleError this error c =
  if 0 <? List.length (errorCallbacks this) then
    let rs := map (fun cb => cb error) (errorCallbacks this) in
    (match first_throw rs with None => Ret tt | Some t => Exn t end,
     log (map (fun i => CallError i error) (seq 0 (calls_made rs))) c)
  else
    (Ret tt,
     log [Console error_ (Text "[PlivoWebSocketServer] Error:" :: message error)] c).
Proof.
  unfold handleError. destruct (0 <? List.length (errorCallbacks this)).
  - unfold forEach. rewrite forEach_calls. reflexivity.
  - reflexivity.
Qed.

Lemma all_normal {A : Type} (f : A -> Completion) (l : list A) :
  (forall x, In x l -> f x = Normal) ->
  first_throw (map f l) = None /\ calls_made (map f l) = List.length l.
Proof.
  induction l as [|x rest IH]; intros H; simpl; auto.
  rewrite (H x) by (left; reflexivity).
  destruct IH as [IH1 IH2]; [intros y Hy; apply H; right; exact Hy|].
  rewrite IH1, IH2. auto.
Qed.

Lemma handleError_returns (this : PlivoWebSocketServer) (error : Error)
  (c : Connection) :
  error_callbacks_return this ->
  handleError this error c = (Ret tt, log (error_report this error) c).
Proof.
  intros H. rewrite handleError_eq. unfold error_report.
  destruct (0 <? List.length (errorCallbacks this)); [|reflexivity].
  cbv zeta.
  destruct (all_normal (fun cb => cb error) (errorCallbacks this)) as [H1 H2].
  { intros cb Hcb. apply H. exact Hcb. }
  unfold Callback in *. rewrite H1, H2. reflexivity.
Qed.

Lemma handleIncomingEvent_returns (this : PlivoWebSocketServer) (data : json)
  (c : Connection) :
  error_callbacks_return this ->
  handleIncomingEvent this data c =
  (Ret tt, log (dispatch_trace this data) (with_metadata (route data) c)).
Proof.
  intros H. rewrite handleIncomingEvent_eq. cbv zeta. unfold dispatch_trace.
  cbv zeta.
  destruct (route data) as [e|e|e|e|e|ev|t];
    try (destruct (first_throw _); [rewrite handleError_returns by exact H;
                                    rewrite log_log; reflexivity
                                   | rewrite app_nil_r; reflexivity]).
  - unfold try_catch. rewrite handleError_returns by exact H.
    rewrite log_log. reflexivity.
  - rewrite handleError_returns by exact H. rewrite log_log. reflexivity.
Qed.

Lemma quiet_app (l l' : list Action) : quiet l -> quiet l' -> quiet (l ++ l').
Proof. unfold quiet. intros H H'. rewrite dispatched_app, H, H'. reflexivity. Qed.

Lemma quiet_map {A : Type} (g : A -> Action) (l : list A) :
  (forall x, dispatched [g x] = []) -> quiet (map g l).
Proof.
  intros H. induction l as [|x rest IH]; [reflexivity|].
  change (map g (x :: rest)) with ([g x] ++ map g rest).
  apply quiet_app; [apply H | exact IH].
Qed.

Lemma quiet_listener_calls (r : Routed) (l : list nat) :
  quiet (flat_map (listener_call r) l).
Proof.
  induction l as [|x rest IH]; [reflexivity|].
  cbn [flat_map]. apply quiet_app; [|exact IH].
  destruct r; reflexivity.
Qed.


Lemma dispatched_cons (d : json) (l : list Action) :
  dispatched (Dispatch d :: l) = d :: dispatched l.
Proof. reflexivity. Qed.


(** Whatever the callbacks do, [handleError] only makes calls. *)
Lemma handleError_frame (this : PlivoWebSocketServer) (error : Error)
  (c : Connection) :
  exists l, snd (handleError this error c) = log l c /\ quiet l.
Proof.
  rewrite handleError_eq. destruct (0 <? _); cbv zeta; cbn [snd].
  - eexists. split; [reflexivity|]. apply quiet_map. reflexivity.
  - eexists. split; reflexivity.
Qed.

(** Whatever the callbacks do, a dispatch is entered once, leaves the
    metadata of a [start] event, and otherwise only makes calls. *)
Lemma handleIncomingEvent_frame (this : PlivoWebSocketServer) (data : json)
  (c : Connection) :
  exists l,
    snd (handleIncomingEvent this data c)
    = log (Dispatch data :: l) (with_metadata (route data) c) /\ quiet l.
Proof.
  rewrite handleIncomingEvent_eq. cbv zeta.
  set (calls := flat_map _ _).
  assert (Hc : quiet calls) by apply quiet_listener_calls.
  set (c1 := log (Dispatch data :: calls) _).
  assert (He : forall e, exists l,
             snd (handleError this e c1)
             = log (Dispatch data :: l) (with_metadata (route data) c) /\ quiet l).
  { intros e. destruct (handleError_frame this e c1) as [l [-> Hl]].
    subst c1. rewrite log_log. exists (calls ++ l). split; [reflexivity|].
    apply quiet_app; assumption. }
  assert (H0 : exists l, c1 = log (Dispatch data :: l) (with_metadata (route data) c)
                         /\ quiet l).
  { exists calls. auto. }
  destruct (route data) as [e|e|e|e|e|ev|t];
    try (destruct (first_throw _); [apply He | exact H0]).
  - unfold try_catch.
    destruct (handleError this (unknown_event ev) c1) as [[[]|t] c2] eqn:E.
    + rewrite <- (f_equal snd E). apply He.
    + pose proof (handleError_frame this (unknown_event ev) c1) as [l [Hl Hq]].
      rewrite E in Hl. cbn [snd] in Hl. subst c2.
      destruct (handleError_frame this (failed_to_handle t) (log l c1)) as [l' [-> Hl']].
      subst c1. rewrite !log_log. exists ((calls ++ l) ++ l'). split; [reflexivity|].
      repeat apply quiet_app; assumption.
  - apply He.
Qed.

(** ** The life of a connection *)

Lemma same_state_refl (c : Connection) : same_state c c.
Proof. repeat split. Qed.

Lemma same_state_trans (c1 c2 c3 : Connection) :
  same_state c1 c2 -> same_state c2 c3 -> same_state c1 c3.
Proof. unfold same_state. intuition congruence. Qed.

Lemma same_state_log (l : list Action) (c : Connection) : same_state c (log l c).
Proof. repeat split. Qed.

Lemma same_state_with_metadata (r : Routed) (c : Connection) :
  same_state c (with_metadata r c).
Proof. destruct r; repeat split. Qed.

Lemma metadata_after_snoc (ds : list json) (d : json) :
  metadata_after (ds ++ [d]) = metadata_step (metadata_after ds) d.
Proof. unfold metadata_after. rewrite fold_left_app. reflexivity. Qed.

Lemma metadata_with_metadata (r : Routed) (c : Connection) (d : json) :
  r = route d -> metadata (with_metadata r c) = metadata_step (metadata c) d.
Proof. intros ->. unfold metadata_step. destruct (route d); reflexivity. Qed.

Lemma consistent_log (l : list Action) (c : Connection) :
  consistent c -> quiet l -> consistent (log l c).
Proof.
  intros [Hm [Hr [Hl Ha]]] Hq. unfold consistent.
  cbn [log set_trace metadata listening isReady awaiting trace].
  rewrite dispatched_app, Hq, app_nil_r. auto.
Qed.

Lemma consistent_dispatch (d : json) (l : list Action) (c : Connection) :
  consistent c -> isReady c = true -> quiet l ->
  consistent (log (Dispatch d :: l) (with_metadata (route d) c)).
Proof.
  intros [Hm [Hr [Hl Ha]]] Hready Hq.
  destruct (same_state_with_metadata (route d) c) as [S1 [S2 [S3 [S4 S5]]]].
  assert (Ht : trace (with_metadata (route d) c) = trace c)
    by (destruct (route d); reflexivity).
  assert (Hlis : listening c = true).
  { destruct (listening c) eqn:E; [reflexivity|].
    destruct (Hl eq_refl). congruence. }
  unfold consistent.
  cbn [log set_trace metadata listening isReady awaiting trace].
  rewrite S1, S2, S4, Ht, Hlis.
  rewrite dispatched_app, dispatched_cons, Hq.
  rewrite (metadata_with_metadata (route d) c d eq_refl), Hm, Hlis.
  rewrite metadata_after_snoc.
  repeat split; auto; congruence.
Qed.

Lemma forEach_guarded {A : Type} (act : nat -> Action) (f : A -> Completion)
  (l : list A) :
  forall i c,
    forEach_from i l
      (fun j cb => try_catch (call (act j) (f cb)) (fun _ => ret tt)) c
    = (Ret tt, log (map act (seq i (List.length l))) c).
Proof.
  induction l as [|x rest IH]; intros i c.
  - simpl. rewrite log_nil. reflexivity.
  - cbn [forEach_from List.length seq map].
    unfold bind at 1. unfold try_catch at 1. unfold call at 1. unfold bind at 1.
    change (emit (act i) c) with (Ret tt, log [act i] c).
    destruct (f x) as [|t]; cbv iota beta;
      [unfold ret at 1 | unfold throw at 1; unfold ret at 1];
      rewrite IH, log_log; reflexivity.
Qed.

Lemma connectionSetupFailed_eq (this : PlivoWebSocketServer) (error : Thrown)
  (c : Connection) :
  connectionSetupFailed this error c
  = (Ret tt, closing (log (setup_failure this error) c)).
Proof.
  unfold connectionSetupFailed, setup_failure. cbv zeta.
  unfold bind at 1. change (emit ?a c) with (Ret tt, log [a] c). cbv iota beta.
  unfold bind at 1. unfold forEach. rewrite forEach_guarded.
  unfold try_catch, ws_close, bind, emit, modify. cbv iota beta.
  f_equal. unfold closing, log, set_trace, set_readyState. simpl.
  rewrite <- !app_assoc. reflexivity.
Qed.


Lemma same_stage_trans (c1 c2 c3 : Connection) :
  same_stage c1 c2 -> same_stage c2 c3 -> same_stage c1 c3.
Proof. unfold same_stage. intuition congruence. Qed.

Lemma same_state_stage (c c' : Connection) : same_state c c' -> same_stage c c'.
Proof. unfold same_state, same_stage. intuition. Qed.

Lemma handler_spec (m : Eff unit) (c : Connection) :
  exists l, handler m c = log l (snd (m c)) /\ quiet l.
Proof.
  unfold handler. destruct (m c) as [[[]|t] c']; cbn [snd].
  - exists []. rewrite log_nil. split; reflexivity.
  - exists [Uncaught t]. split; reflexivity.
Qed.

Section Life.

Variable this : PlivoWebSocketServer.
Variable request : IncomingMessage.

Lemma dispatch_step (d : json) (c : Connection) :
  consistent c -> isReady c = true ->
  consistent (snd (handleIncomingEvent this d c)) /\
  same_state c (snd (handleIncomingEvent this d c)).
Proof.
  intros Hc Hr.
  destruct (handleIncomingEvent_frame this d c) as [l [-> Hq]].
  split.
  - apply consistent_dispatch; assumption.
  - eapply same_state_trans; [apply same_state_with_metadata|apply same_state_log].
Qed.

Lemma replay_step (buffer : list json) :
  forall i c,
    consistent c -> isReady c = true ->
    let c' := snd (forEach_from i buffer
                     (fun _ msg => handleIncomingEvent this msg) c) in
    consistent c' /\ same_state c c'.
Proof.
  induction buffer as [|x rest IH]; intros i c Hc Hr; cbv zeta.
  - split; [exact Hc | apply same_state_refl].
  - cbn [forEach_from]. unfold bind.
    destruct (dispatch_step x c Hc Hr) as [Hc1 Hs1].
    destruct (handleIncomingEvent this x c) as [[[]|t] c1]; cbn [snd] in *.
    + assert (Hr1 : isReady c1 = true) by (destruct Hs1 as [_ [-> _]]; exact Hr).
      destruct (IH (S i) c1 Hc1 Hr1) as [Hc2 Hs2].
      split; [exact Hc2 | exact (same_state_trans _ _ _ Hs1 Hs2)].
    + auto.
Qed.

Lemma handleError_step (error : Error) (c : Connection) :
  consistent c ->
  consistent (snd (handleError this error c)) /\
  same_state c (snd (handleError this error c)).
Proof.
  intros Hc. destruct (handleError_frame this error c) as [l [-> Hq]].
  split; [apply consistent_log; assumption | apply same_state_log].
Qed.

Lemma handled (m : Eff unit) (c : Connection) :
  consistent (snd (m c)) -> same_stage c (snd (m c)) ->
  consistent (handler m c) /\ same_stage c (handler m c).
Proof.
  intros Hc Hs. destruct (handler_spec m c) as [l [-> Hq]].
  split; [apply consistent_log; assumption|].
  eapply same_stage_trans; [exact Hs|]. apply same_state_stage, same_state_log.
Qed.

Lemma onMessage_step (data : RawData) (c : Connection) :
  consistent c ->
  consistent (snd (onMessage this data c)) /\
  same_stage c (snd (onMessage this data c)).
Proof.
  intros Hc. unfold onMessage, try_catch, bind, JSON_parse.
  destruct data as [text|v].
  - unfold throw. cbv iota beta.
    destruct (handleError_step (failed_to_parse
                (ThrowError {| message := [Text text] |})) c Hc) as [H1 H2].
    split; [exact H1 | apply same_state_stage, H2].
  - unfold ret, gets. cbv iota beta.
    destruct (isReady c) eqn:Hr.
    + destruct (dispatch_step v c Hc Hr) as [Hc1 Hs1].
      destruct (handleIncomingEvent this v c) as [[[]|t] c1]; cbn [snd] in *.
      * split; [exact Hc1 | apply same_state_stage, Hs1].
      * destruct (handleError_step (failed_to_parse t) c1 Hc1) as [H1 H2].
        split; [exact H1|].
        apply same_state_stage. exact (same_state_trans _ _ _ Hs1 H2).
    + unfold modify. cbn [snd]. split; [exact Hc | repeat split].
Qed.

Lemma onClose_step (c : Connection) :
  consistent c ->
  consistent (snd (onClose this c)) /\ same_stage c (snd (onClose this c)).
Proof.
  intros Hc. unfold onClose, forEach.
  rewrite (forEach_calls CallClose (fun cb : Callback unit => cb tt)).
  cbn [snd]. split.
  - apply consistent_log; [exact Hc|]. apply quiet_map. reflexivity.
  - apply same_state_stage, same_state_log.
Qed.

Lemma consistent_closing (c : Connection) : consistent c -> consistent (closing c).
Proof. unfold closing. destruct (readyState c); auto. Qed.

Lemma same_stage_closing (c : Connection) : same_stage c (closing c).
Proof. unfold closing. destruct (readyState c); repeat split. Qed.

Lemma setupFailed_step (error : Thrown) (c : Connection) :
  consistent c ->
  consistent (snd (connectionSetupFailed this error c)) /\
  same_stage c (snd (connectionSetupFailed this error c)).
Proof.
  intros Hc. rewrite connectionSetupFailed_eq. cbn [snd]. split.
  - apply consistent_closing, consistent_log; [exact Hc|].
    unfold setup_failure. cbv zeta.
    change (?a :: ?l ++ ?l') with ([a] ++ l ++ l').
    repeat apply quiet_app; try reflexivity. apply quiet_map. reflexivity.
  - eapply same_stage_trans; [|apply same_stage_closing].
    apply same_state_stage, same_state_log.
Qed.

(** The [try] block, from a state where the handler is not suspended. *)
Lemma runCallbacks_step (i : nat) (c : Connection) :
  consistent c -> listening c = true -> isReady c = false ->
  awaiting c = None ->
  consistent (snd (try_catch (runCallbacks this i)
                             (connectionSetupFailed this) c)).
Proof.
  intros Hc Hl Hr Ha. unfold try_catch, runCallbacks.
  destruct (nth_error (connectionCallbacks this) i) as [cb|].
  - cbn. destruct Hc as [Hm [Hd [Hl' Ha']]]. unfold consistent.
    cbn [log set_trace set_awaiting metadata listening isReady awaiting trace].
    rewrite dispatched_app. cbn [dispatched flat_map]. rewrite app_nil_r.
    rewrite Hl in *. repeat split; auto; congruence.
  - unfold bind at 1, modify at 1. cbv iota beta.
    unfold bind at 1, gets at 1. cbv iota beta.
    cbn [set_isReady messageBuffer].
    set (c0 := set_isReady true c).
    assert (Hc0 : consistent c0).
    { destruct Hc as [Hm [Hd [Hl' Ha']]]. unfold consistent, c0.
      cbn [set_isReady metadata listening isReady awaiting trace].
      rewrite Hl in *. repeat split; auto; congruence. }
    destruct (replay_step (messageBuffer c) 0 c0 Hc0 eq_refl) as [H1 H2].
    unfold forEach.
    destruct (forEach_from 0 (messageBuffer c) _ c0) as [[[]|t] c1];
      cbn [snd] in *; [exact H1|].
    apply setupFailed_step. exact H1.
Qed.

Lemma settled_step (c : Connection) :
  consistent c -> consistent (snd (settled this request c)).
Proof.
  intros Hc. unfold settled. unfold bind at 1, gets at 1. cbv iota beta.
  destruct (awaiting c) as [i|] eqn:Ha; [|exact Hc].
  unfold bind at 1, modify at 1. cbv iota beta.
  assert (Hl : listening c = true).
  { destruct Hc as [_ [_ [Hl _]]]. destruct (listening c); [reflexivity|].
    destruct (Hl eq_refl). congruence. }
  assert (Hr : isReady c = false).
  { destruct Hc as [_ [_ [_ Hr]]]. destruct (isReady c); [|reflexivity].
    specialize (Hr eq_refl). congruence. }
  set (c0 := set_awaiting None c).
  assert (Hc0 : consistent c0).
  { destruct Hc as [Hm [Hd [Hl' Ha']]]. unfold consistent, c0.
    cbn [set_awaiting metadata listening isReady awaiting trace].
    repeat split; auto. }
  destruct (nth_error (connectionCallbacks this) i) as [cb|].
  - destruct (cb request) as [|t].
    + apply runCallbacks_step; auto.
    + unfold try_catch, throw. apply setupFailed_step. exact Hc0.
  - exact Hc0.
Qed.

Lemma step_consistent (c : Connection) (e : Event) :
  consistent c -> consistent (step this request c e).
Proof.
  intros Hc. destruct e as [data| | |]; cbn [step].
  - destruct (listening c); [|exact Hc].
    destruct (onMessage_step data c Hc) as [H1 H2].
    apply (handled _ _ H1 H2).
  - destruct (listening c); [|exact Hc].
    destruct (handleError_step {| message := [Text "WebSocket error occurred"] |} c Hc)
      as [H1 H2].
    apply (handled (onError this) c H1 (same_state_stage _ _ H2)).
  - cbn [set_readyState listening].
    destruct (listening c); [|exact Hc].
    destruct (onClose_step (set_readyState CLOSED c) Hc) as [H1 H2].
    apply (handled _ _ H1 H2).
  - destruct (handler_spec (settled this request) c) as [l [-> Hq]].
    apply consistent_log; [|exact Hq]. apply settled_step. exact Hc.
Qed.

Lemma validateConnectionSignature_frame (c : Connection) :
  exists b l, validateConnectionSignature this request c = (Ret b, log l c)
              /\ quiet l.
Proof.
  unfold validateConnectionSignature, bind, ret.
  repeat change (emit ?a ?c) with (Ret tt, log [a] c). cbv iota beta zeta.
  destruct (falsy _ || falsy _).
  - change (emit ?a ?c) with (Ret tt, log [a] c). cbv iota beta.
    rewrite log_log. eexists _, _. split; reflexivity.
  - change (emit ?a ?c) with (Ret tt, log [a] c). cbv iota beta.
    destruct (validateV3Signature _ _ _ _ _ _) as [error|answer].
    + change (emit ?a ?c) with (Ret tt, log [a] c). cbv iota beta.
      rewrite !log_log. eexists _, _. split; reflexivity.
    + rewrite log_log. eexists _, _. split; reflexivity.
Qed.

Lemma ws_close_eq (code : N) (reason : string) (c : Connection) :
  ws_close code reason c = (Ret tt, closing (log [WsClose code reason] c)).
Proof. reflexivity. Qed.

Lemma on_connection_consistent : consistent (on_connection this request).
Proof.
  unfold on_connection.
  destruct (handler_spec (connectionHandler this request) accepted) as [l [-> Hq]].
  apply consistent_log; [|exact Hq].
  unfold connectionHandler. unfold bind at 1.
  assert (H : exists b l,
             (if validateSignatureEnabled this
              then validateConnectionSignature this request
              else ret true) accepted = (Ret b, log l accepted) /\ quiet l).
  { destruct (validateSignatureEnabled this).
    - apply validateConnectionSignature_frame.
    - exists true, []. split; reflexivity. }
  destruct H as [b [l0 [-> Hq0]]]. cbv iota beta.
  assert (Hc0 : consistent (log l0 accepted)).
  { apply consistent_log; [|exact Hq0]. repeat split; discriminate. }
  destruct b; cbn [negb].
  - unfold bind at 1, modify at 1. cbv iota beta.
    unfold bind at 1, modify at 1. cbv iota beta.
    apply runCallbacks_step; try reflexivity.
    unfold consistent.
    cbn [log set_trace set_metadata set_listening metadata listening isReady
         awaiting trace accepted app].
    rewrite Hq0. repeat split; auto; discriminate.
  - unfold bind. change (emit ?a ?c) with (Ret tt, log [a] c). cbv iota beta.
    rewrite ws_close_eq. cbn [snd].
    apply consistent_closing.
    apply consistent_log; [apply consistent_log; [exact Hc0|]|]; reflexivity.
Qed.

Lemma run_snoc (events : list Event) (e : Event) :
  run this request (events ++ [e]) = step this request (run this request events) e.
Proof. unfold run. rewrite fold_left_app. reflexivity. Qed.


Lemma run_consistent (events : list Event) : consistent (run this request events).
Proof.
  induction events as [|e events IH] using rev_ind.
  - apply on_connection_consistent.
  - rewrite run_snoc. apply step_consistent. exact IH.
Qed.

End Life.

(** ** Metadata *)

Lemma route_start (data : json) (e : StartEvent.t) :
  route data = ToStart e -> StartEventSchema (Some data) = Valid e.
Proof.
  unfold route.
  destruct data as [|b|n|s|items|props]; try discriminate.
  cbn [prop].
  destruct (case_of (assoc "event" props)) as [[| | | |]|]; unfold checked;
    try discriminate;
    match goal with
    | |- context [match ?S (Some ?d) with _ => _ end] => destruct (S (Some d))
    end; try discriminate.
  intros [= ->]. reflexivity.
Qed.

Lemma handleIncomingEvent_metadata (this : PlivoWebSocketServer) (data : json)
  (c : Connection) :
  metadata (snd (handleIncomingEvent this data c))
  = metadata_step (metadata c) data.
Proof.
  destruct (handleIncomingEvent_frame this data c) as [l [-> _]].
  cbn [log set_trace metadata].
  apply metadata_with_metadata. reflexivity.
Qed.

(** The identifier the metadata holds went through the schema. *)
Lemma metadata_after_uuid (ds : list json) :
  match metadata_after ds with
  | Some m => match ConnectionMetadata.streamId m with
              | Some sid => uuid_regex sid = true
              | None => True
              end
  | None => False
  end.
Proof.
  induction ds as [|d ds IH] using rev_ind.
  - exact I.
  - rewrite metadata_after_snoc. unfold metadata_step.
    destruct (route d) as [e| | | | | |] eqn:E; try exact IH.
    apply route_start in E.
    pose proof (StartEventSchema_typed d e E) as T. cbv zeta in T.
    cbn [metadata_of ConnectionMetadata.streamId]. intuition.
Qed.

Lemma metadata_after_empty (ds : list json) :
  Forall (fun d => processed_start d = false) ds ->
  metadata_after ds = Some ConnectionMetadata.empty.
Proof.
  induction ds as [|d ds IH] using rev_ind; intros H.
  - reflexivity.
  - apply Forall_app in H. destruct H as [H1 H2].
    rewrite metadata_after_snoc, (IH H1).
    inversion H2 as [|? ? Hd _]; subst.
    unfold processed_start in Hd. unfold metadata_step.
    destruct (route d); try reflexivity. discriminate.
Qed.

Lemma metadata_after_started (ds : list json) :
  Exists (fun d => processed_start d = true) ds ->
  exists e, metadata_after ds = Some (metadata_of e).
Proof.
  induction ds as [|d ds IH] using rev_ind; intros H.
  - inversion H.
  - rewrite metadata_after_snoc. unfold metadata_step.
    destruct (route d) as [e| | | | | |] eqn:E;
      try (apply Exists_app in H; destruct H as [H|H];
           [apply IH; exact H
           | inversion H as [? ? Hd|? ? Hd]; subst;
             [unfold processed_start in Hd; rewrite E in Hd; discriminate
             | inversion Hd]]).
    exists e. reflexivity.
Qed.

Lemma start_routed (data : json) (e : StartEvent.t) :
  StartEventSchema (Some data) = Valid e -> route data = ToStart e.
Proof.
  intros H. pose proof (StartEventSchema_typed data e H) as T. cbv zeta in T.
  destruct T as [Hev _].
  unfold StartEventSchema in H. apply z_object_valid in H.
  destruct H as [props [[= ->] H]].
  unfold route. cbn [prop] in *. rewrite Hev. cbn [case_of String.eqb].
  change (String.eqb "start" "start") with true. cbv iota.
  fold StartEventSchema.
  change (z_object _ (Some (JObject props)))
    with (StartEventSchema (Some (JObject props))).
  unfold StartEventSchema at 1. cbn [z_object]. rewrite H. reflexivity.
Qed.

Lemma metadata_step_schema (m : option ConnectionMetadata.t) (data : json) :
  metadata_step m data
  = match StartEventSchema (Some data) with
    | Valid e => Some (metadata_of e)
    | Invalid _ => m
    end.
Proof.
  unfold metadata_step.
  destruct (StartEventSchema (Some data)) as [e|issues] eqn:E.
  - rewrite (start_routed data e E). reflexivity.
  - destruct (route data) as [e| | | | | |] eqn:R; try reflexivity.
    apply route_start in R. congruence.
Qed.

(** C2 (as amended): the metadata of a connection are written each time a
    well-formed [start] event is dispatched, a later one replacing what an
    earlier one left; a dispatch of anything else (another kind of event, a
    [start] payload the schema refuses) leaves them as they were, and nothing
    but a dispatch changes them: at every point of a connection's life they
    are what the dispatches so far leave, starting from the empty record of
    an accepted connection (and there is no record for a refused one). *)
Theorem metadata_follows_start_events (this : PlivoWebSocketServer)
  (request : IncomingMessage) (events : list Event) :
  (forall data c,
      metadata (snd (handleIncomingEvent this data c))
      = match StartEventSchema (Some data) with
        | Valid e => Some (metadata_of e)
        | Invalid _ => metadata c
        end)
  /\ metadata (run this request events)
     = if listening (run this request events)
       then fold_left
              (fun m data => match StartEventSchema (Some data) with
                             | Valid e => Some (metadata_of e)
                             | Invalid _ => m
                             end)
              (dispatched (trace (run this request events)))
              (Some ConnectionMetadata.empty)
       else None.
Proof.
  split.
  - intros data c. rewrite handleIncomingEvent_metadata.
    apply metadata_step_schema.
  - destruct (run_consistent this request events) as [Hm _].
    rewrite Hm. clear Hm. destruct (listening _); [|reflexivity].
    unfold metadata_after.
    generalize (Some ConnectionMetadata.empty).
    induction (dispatched (trace (run this request events))) as [|d ds IH];
      intros m; [reflexivity|].
    cbn [fold_left]. rewrite metadata_step_schema. apply IH.
Qed.

(** C2, as stated, fails: a second well-formed [start] event replaces the
    stream identifier the first one left. *)
Lemma second_start_overwrites_metadata :
  getStreamId (run (server [] [] []) plain_request [first_start])
  = Some sample_streamId
  /\ getStreamId (run (server [] [] []) plain_request [first_start; second_start])
     = Some other_streamId
  /\ sample_streamId <> other_streamId.
Proof. repeat split. discriminate. Qed.

Lemma no_start_no_metadata (this : PlivoWebSocketServer)
  (request : IncomingMessage) (events : list Event) :
  Forall (fun d => processed_start d = false)
         (dispatched (trace (run this request events))) ->
  metadata (run this request events) = None
  \/ metadata (run this request events) = Some ConnectionMetadata.empty.
Proof.
  intros H. destruct (run_consistent this request events) as [Hm _].
  rewrite Hm. destruct (listening _); [|auto].
  rewrite (metadata_after_empty _ H). auto.
Qed.

(** C10: as long as no [start] event was processed on a connection, whether
    it was let in or refused at the signature check, the four accessors
    answer [undefined]. *)
Theorem accessors_undefined_before_start (this : PlivoWebSocketServer)
  (request : IncomingMessage) (events : list Event) :
  Forall (fun d => processed_start d = false)
         (dispatched (trace (run this request events))) ->
  getStreamId (run this request events) = None
  /\ getAccountId (run this request events) = None
  /\ getCallId (run this request events) = None
  /\ getHeaders (run this request events) = None.
Proof.
  intros H. unfold getStreamId, getAccountId, getCallId, getHeaders.
  destruct (no_start_no_metadata this request events H) as [-> | ->]; auto.
Qed.

Lemma accessors_undefined_when_refused :
  listening (run guarded_server plain_request [first_start]) = false
  /\ getStreamId (run guarded_server plain_request [first_start]) = None
  /\ getAccountId (run guarded_server plain_request [first_start]) = None
  /\ getCallId (run guarded_server plain_request [first_start]) = None
  /\ getHeaders (run guarded_server plain_request [first_start]) = None.
Proof.
  split; [reflexivity|].
  apply (accessors_undefined_before_start guarded_server plain_request [first_start]).
  change (Forall (fun d => processed_start d = false) []). constructor.
Defined.

Lemma uuid_not_empty (s : string) : uuid_regex s = true -> falsy (Some s) = false.
Proof. destruct s; [discriminate | reflexivity]. Qed.

Lemma getStreamId_uuid (this : PlivoWebSocketServer) (request : IncomingMessage)
  (events : list Event) (sid : string) :
  getStreamId (run this request events) = Some sid -> uuid_regex sid = true.
Proof.
  destruct (run_consistent this request events) as [Hm _].
  unfold getStreamId. rewrite Hm.
  destruct (listening _); [|discriminate].
  pose proof (metadata_after_uuid (dispatched (trace (run this request events)))) as U.
  destruct (metadata_after _) as [m|]; [|contradiction].
  intros E. rewrite E in U. exact U.
Qed.

Lemma getStreamId_none_iff (this : PlivoWebSocketServer)
  (request : IncomingMessage) (events : list Event) :
  getStreamId (run this request events) = None
  <-> Forall (fun d => processed_start d = false)
             (dispatched (trace (run this request events))).
Proof.
  split.
  - intros H.
    destruct (run_consistent this request events) as [Hm [Hd [Hl _]]].
    destruct (listening (run this request events)) eqn:L.
    + apply Forall_forall. intros d Hin.
      destruct (processed_start d) eqn:P; [|reflexivity].
      assert (Ex : Exists (fun d => processed_start d = true)
                          (dispatched (trace (run this request events)))).
      { apply Exists_exists. eauto. }
      apply metadata_after_started in Ex. destruct Ex as [e He].
      unfold getStreamId in H. rewrite Hm, He in H. discriminate.
    + destruct (Hl eq_refl) as [Hr _]. rewrite (Hd Hr). constructor.
  - intros H. unfold getStreamId.
    destruct (no_start_no_metadata this request events H) as [-> | ->];
      reflexivity.
Qed.

(** C6: on a connection at any point of its life, with the socket in any
    state: [checkpoint] and [clearAudio] throw "WebSocket is not connected"
    when the socket is not open; when it is open and the metadata hold no
    stream identifier, which is so exactly when no [start] event was
    processed, they throw "Stream ID not available. Wait for the start
    event."; otherwise they send one message, the JSON text of
    [{event, streamId, name}] (without [name] for [clearAudio]) with the stored
    identifier, and nothing else changes. *)
Theorem checkpoint_clearAudio_preconditions (this : PlivoWebSocketServer)
  (request : IncomingMessage) (events : list Event) (rs : ReadyState)
  (name : string) :
  checkpoint name (set_readyState rs (run this request events))
  = match rs, getStreamId (run this request events) with
    | OPEN, Some streamId =>
        (Ret tt,
         log [WsSend (JSONText (JObject [("event", JString "checkpoint");
                                         ("streamId", JString streamId);
                                         ("name", JString name)]))]
             (set_readyState rs (run this request events)))
    | OPEN, None =>
        (Exn (ThrowError
                {| message :=
                     [Text "Stream ID not available. Wait for the start event."] |}),
         set_readyState rs (run this request events))
    | _, _ =>
        (Exn (ThrowError {| message := [Text "WebSocket is not connected"] |}),
         set_readyState rs (run this request events))
    end
  /\ clearAudio (set_readyState rs (run this request events))
     = match rs, getStreamId (run this request events) with
       | OPEN, Some streamId =>
           (Ret tt,
            log [WsSend (JSONText (JObject [("event", JString "clearAudio");
                                            ("streamId", JString streamId)]))]
                (set_readyState rs (run this request events)))
       | OPEN, None =>
           (Exn (ThrowError
                   {| message :=
                        [Text "Stream ID not available. Wait for the start event."] |}),
            set_readyState rs (run this request events))
       | _, _ =>
           (Exn (ThrowError {| message := [Text "WebSocket is not connected"] |}),
            set_readyState rs (run this request events))
       end
  /\ (getStreamId (run this request events) = None
      <-> Forall (fun d => processed_start d = false)
                 (dispatched (trace (run this request events)))).
Proof.
  split; [|split; [|apply getStreamId_none_iff]].
  - unfold checkpoint, bind, gets, isActive.
    change (getStreamId (set_readyState rs ?c)) with (getStreamId c).
    cbn [set_readyState readyState].
    destruct rs; try reflexivity. cbn [negb].
    destruct (getStreamId (run this request events)) as [sid|] eqn:E;
      [|reflexivity].
    apply getStreamId_uuid, uuid_not_empty in E.
    unfold or_else. rewrite E. reflexivity.
  - unfold clearAudio, bind, gets, isActive.
    change (getStreamId (set_readyState rs ?c)) with (getStreamId c).
    cbn [set_readyState readyState].
    destruct rs; try reflexivity. cbn [negb].
    destruct (getStreamId (run this request events)) as [sid|] eqn:E;
      [|reflexivity].
    apply getStreamId_uuid, uuid_not_empty in E.
    unfold or_else. rewrite E. reflexivity.
Qed.

(** ** Outbound audio *)

(** C8: the base64 text [playAudio] puts in the message it sends decodes,
    through [getRawMedia] of a media event that carries it, to the bytes
    [playAudio] was given. *)
Theorem playAudio_getRawMedia_roundtrip (contentType : string)
  (sampleRate : number) (payload : Buffer) (ws : Connection) :
  isActive ws = true ->
  exists base64Payload,
    playAudio contentType sampleRate payload ws
    = (Ret tt,
       log [WsSend (JSONText
              (JObject [("event", JString "playAudio");
                        ("media",
                         JObject [("contentType", JString contentType);
                                  ("sampleRate", number_json sampleRate);
                                  ("payload", JString base64Payload)])]))] ws)
    /\ MediaEventSchema (Some (media_payload base64Payload))
       = Valid (media_event base64Payload)
    /\ forall data : MediaEvent.t,
         MediaEventData.payload (MediaEvent.media data) = base64Payload ->
         getRawMedia data = payload.
Proof.
  intros Hopen. exists (Base64.encode payload). repeat split.
  - unfold playAudio, bind, gets. rewrite Hopen. reflexivity.
  - intros data E. unfold getRawMedia. rewrite E. apply base64_roundtrip.
Qed.

Lemma playAudio_getRawMedia_sample :
  isActive accepted = true
  /\ exists base64Payload,
       playAudio "audio/x-mulaw" (Finite 8000) [x00; x10; xff; x7f] accepted
       = (Ret tt,
          log [WsSend (JSONText
                 (JObject [("event", JString "playAudio");
                           ("media",
                            JObject [("contentType", JString "audio/x-mulaw");
                                     ("sampleRate", number_json (Finite 8000));
                                     ("payload", JString base64Payload)])]))]
              accepted)
       /\ MediaEventSchema (Some (media_payload base64Payload))
          = Valid (media_event base64Payload)
       /\ forall data : MediaEvent.t,
            MediaEventData.payload (MediaEvent.media data) = base64Payload ->
            getRawMedia data = [x00; x10; xff; x7f].
Proof.
  split; [reflexivity|].
  apply (playAudio_getRawMedia_roundtrip "audio/x-mulaw" (Finite 8000)
           [x00; x10; xff; x7f] accepted).
  reflexivity.
Defined.

(** ** Failing listeners *)

(** C7 fails in [handleError]: of two error callbacks of which the first
    throws, the second is not called when the socket reports an error, and
    the exception leaves the handler. *)
Lemma handleError_stops_at_throwing_listener :
  trace (run (server [] [] [throws; returns]) plain_request [SocketError])
  = [CallError 0 {| message := [Text "WebSocket error occurred"] |};
     Uncaught listener_failed].
Proof. reflexivity. Qed.

(** The [catch] block of the connection handler does call every error
    callback, whatever each of them does. *)
Lemma connectionSetupFailed_calls_all (this : PlivoWebSocketServer)
  (error : Thrown) (c : Connection) :
  connectionSetupFailed this error c
  = (Ret tt, closing (log (setup_failure this error) c)).
Proof. apply connectionSetupFailed_eq. Qed.

(** C5 fails when an error callback throws: an unknown event replayed from
    the buffer is reported to the first error callback, which throws; the
    exception leaves the dispatcher and ends the replay, the media message
    buffered after it is never dispatched, and the connection is closed. *)
Lemma malformed_message_ends_replay :
  trace (run (server [resolves] [returns] [throws; returns]) plain_request
           [SocketMessage (JSONText bogus_payload);
            SocketMessage (JSONText (media_payload "AAAA"));
            Settled])
  = [CallConnection 0;
     Dispatch bogus_payload;
     CallError 0 (unknown_event (Some (JString "bogus")));
     CallError 0 (failed_to_handle listener_failed);
     Console error_ [Text "[PlivoWebSocketServer] Connection setup failed:";
                     Text "listener failed"];
     CallError 0 {| message := [Text "listener failed"] |};
     CallError 1 {| message := [Text "listener failed"] |};
     WsClose 1011 "Connection setup failed"]
  /\ readyState (run (server [resolves] [returns] [throws; returns])
                   plain_request
                   [SocketMessage (JSONText bogus_payload);
                    SocketMessage (JSONText (media_payload "AAAA"));
                    Settled])
     = CLOSING.
Proof. split; reflexivity. Qed.





(** ** A failing connection listener *)

Section Failure.

Variable this : PlivoWebSocketServer.
Variable request : IncomingMessage.





End Failure.



(** ** Buffering and replay *)


Section Replay.

Variable this : PlivoWebSocketServer.
Variable request : IncomingMessage.
Hypothesis errors_return : error_callbacks_return this.










End Replay.




(** With error callbacks that return, a value the dispatcher cannot route
    (an unknown or missing [event], a payload its schema refuses, [null]) is
    reported through [handleError] and nothing else happens: no listener of
    another kind is called, the socket is not closed, and the connection is
    as it was but for the calls observed. *)
Lemma malformed_message_isolated (this : PlivoWebSocketServer) (data : json)
  (c : Connection) :
  error_callbacks_return this ->
  is_event (route data) = false ->
  handleIncomingEvent this data c
  = (Ret tt,
     log (Dispatch data
            :: error_report this
                 match route data with
                 | Unknown ev => unknown_event ev
                 | Failed t => failed_to_handle t
                 | _ => unknown_event None
                 end) c).
Proof.
  intros He Hr. rewrite (handleIncomingEvent_returns this data c He).
  unfold dispatch_trace. cbv zeta.
  destruct (route data); try discriminate Hr; reflexivity.
Qed.

(** * Further properties *)

(** ** The other inbound schemas *)

Ltac check_fields :=
  repeat apply checks_ap; try apply checks_valid; apply checks_field.

Lemma media_ok_shape (data : json) :
  media_ok data =
  (let d := Some data in
   let m := prop d "media" in
   is_object d
   && (true
       && is_finite_number (prop d "sequenceNumber")
       && is_uuid (prop d "streamId")
       && is_literal "media" (prop d "event")
       && (is_object m
           && (true
               && is_string (prop m "track")
               && is_string (prop m "timestamp")
               && is_finite_number (prop m "chunk")
               && is_string (prop m "payload")))
       && is_string (prop d "extra_headers"))).
Proof. unfold media_ok. cbv zeta. btauto. Qed.

Lemma MediaEventSchema_checks (data : json) :
  checks (media_ok data) (offends (Some data) media_field)
         (MediaEventSchema (Some data)).
Proof.
  rewrite media_ok_shape. cbv zeta.
  unfold MediaEventSchema, MediaEventDataSchema.
  apply checks_object; [constructor|]. intros props E. rewrite E.
  cbn [prop]. check_fields.
  - apply checks_number. constructor.
  - apply checks_uuid. constructor.
  - apply checks_literal. constructor.
  - apply checks_object; [constructor|]. intros mprops Em. rewrite Em.
    cbn [prop]. check_fields; (apply checks_string || apply checks_number);
      constructor.
  - apply checks_string. constructor.
Qed.

Ltac open_object H props E :=
  apply z_object_valid in H; destruct H as [props [E H]]; peel H.

Lemma MediaEventSchema_typed (data : json) (ev : MediaEvent.t) :
  MediaEventSchema (Some data) = Valid ev ->
  let d := Some data in
  let m := prop d "media" in
  prop d "event" = Some (JString "media")
  /\ MediaEvent.event ev = "media"
  /\ prop d "sequenceNumber" = Some (JNumber (MediaEvent.sequenceNumber ev))
  /\ prop d "streamId" = Some (JString (MediaEvent.streamId ev))
  /\ uuid_regex (MediaEvent.streamId ev) = true
  /\ prop d "extra_headers" = Some (JString (MediaEvent.extra_headers ev))
  /\ prop m "track" = Some (JString (MediaEventData.track (MediaEvent.media ev)))
  /\ prop m "timestamp"
     = Some (JString (MediaEventData.timestamp (MediaEvent.media ev)))
  /\ prop m "chunk" = Some (JNumber (MediaEventData.chunk (MediaEvent.media ev)))
  /\ prop m "payload"
     = Some (JString (MediaEventData.payload (MediaEvent.media ev))).
Proof.
  intros H. unfold MediaEventSchema in H.
  apply z_object_valid in H. destruct H as [props [[= ->] H]]. peel H.
  match goal with
  | H : MediaEventDataSchema _ = Valid _ |- _ =>
      unfold MediaEventDataSchema in H; open_object H mprops Hm
  end.
  read_fields. cbv zeta.
  cbn [prop MediaEvent.event MediaEvent.sequenceNumber MediaEvent.streamId
       MediaEvent.extra_headers MediaEvent.media MediaEventData.track
       MediaEventData.timestamp MediaEventData.chunk MediaEventData.payload].
  rewrite Hm. cbn [prop]. repeat split; assumption.
Qed.

(** X1: a decoded value passes [MediaEventSchema] exactly when it is an
    object whose [event] is the string media, whose [sequenceNumber] is a
    finite number, whose [streamId] is in the identifier format, whose
    [extra_headers] is a string and whose [media] is an object with [track],
    [timestamp] and [payload] strings and [chunk] a finite number; the
    payload is not checked to be base64.  The event returned holds those
    values; a refusal carries at least one issue, and the path of every
    issue leads to a field that breaks what the schema asks of it. *)
Theorem MediaEventSchema_verdict (data : json) :
  match MediaEventSchema (Some data) with
  | Valid ev =>
      media_ok data = true
      /\ at_path (Some data) [Key "sequenceNumber"]
         = Some (JNumber (MediaEvent.sequenceNumber ev))
      /\ at_path (Some data) [Key "streamId"]
         = Some (JString (MediaEvent.streamId ev))
      /\ at_path (Some data) [Key "extra_headers"]
         = Some (JString (MediaEvent.extra_headers ev))
      /\ at_path (Some data) [Key "media"; Key "track"]
         = Some (JString (MediaEventData.track (MediaEvent.media ev)))
      /\ at_path (Some data) [Key "media"; Key "timestamp"]
         = Some (JString (MediaEventData.timestamp (MediaEvent.media ev)))
      /\ at_path (Some data) [Key "media"; Key "chunk"]
         = Some (JNumber (MediaEventData.chunk (MediaEvent.media ev)))
      /\ at_path (Some data) [Key "media"; Key "payload"]
         = Some (JString (MediaEventData.payload (MediaEvent.media ev)))
  | Invalid issues =>
      media_ok data = false /\ issues <> []
      /\ Forall (offends (Some data) media_field) issues
  end.
Proof.
  pose proof (MediaEventSchema_checks data) as C.
  destruct (MediaEventSchema (Some data)) as [ev|issues] eqn:E.
  - split; [exact C|].
    pose proof (MediaEventSchema_typed data ev E) as T. cbv zeta in T.
    cbn [at_path]. intuition.
  - exact C.
Qed.

Lemma dtmf_ok_shape (data : json) :
  dtmf_ok data =
  (let d := Some data in
   let m := prop d "dtmf" in
   is_object d
   && (true
       && is_literal "dtmf" (prop d "event")
       && is_finite_number (prop d "sequenceNumber")
       && is_uuid (prop d "streamId")
       && (is_object m
           && (true
               && is_string (prop m "track")
               && is_string (prop m "digit")
               && is_string (prop m "timestamp")))
       && is_string (prop d "extra_headers"))).
Proof. unfold dtmf_ok. cbv zeta. btauto. Qed.

Lemma DTMFEventSchema_checks (data : json) :
  checks (dtmf_ok data) (offends (Some data) dtmf_field)
         (DTMFEventSchema (Some data)).
Proof.
  rewrite dtmf_ok_shape. cbv zeta.
  unfold DTMFEventSchema, DTMFEventDataSchema.
  apply checks_object; [constructor|]. intros props E. rewrite E.
  cbn [prop]. check_fields.
  - apply checks_literal. constructor.
  - apply checks_number. constructor.
  - apply checks_uuid. constructor.
  - apply checks_object; [constructor|]. intros mprops Em. rewrite Em.
    cbn [prop]. check_fields; apply checks_string; constructor.
  - apply checks_string. constructor.
Qed.

Lemma DTMFEventSchema_typed (data : json) (ev : DTMFEvent.t) :
  DTMFEventSchema (Some data) = Valid ev ->
  let d := Some data in
  let m := prop d "dtmf" in
  prop d "event" = Some (JString "dtmf")
  /\ prop d "sequenceNumber" = Some (JNumber (DTMFEvent.sequenceNumber ev))
  /\ prop d "streamId" = Some (JString (DTMFEvent.streamId ev))
  /\ prop d "extra_headers" = Some (JString (DTMFEvent.extra_headers ev))
  /\ prop m "track" = Some (JString (DTMFEventData.track (DTMFEvent.dtmf ev)))
  /\ prop m "digit" = Some (JString (DTMFEventData.digit (DTMFEvent.dtmf ev)))
  /\ prop m "timestamp"
     = Some (JString (DTMFEventData.timestamp (DTMFEvent.dtmf ev))).
Proof.
  intros H. unfold DTMFEventSchema in H.
  apply z_object_valid in H. destruct H as [props [[= ->] H]]. peel H.
  match goal with
  | H : DTMFEventDataSchema _ = Valid _ |- _ =>
      unfold DTMFEventDataSchema in H; open_object H mprops Hm
  end.
  read_fields. cbv zeta.
  cbn [prop DTMFEvent.event DTMFEvent.sequenceNumber DTMFEvent.streamId
       DTMFEvent.extra_headers DTMFEvent.dtmf DTMFEventData.track
       DTMFEventData.digit DTMFEventData.timestamp].
  rewrite Hm. cbn [prop]. repeat split; assumption.
Qed.

Lemma playedStream_ok_shape (data : json) :
  playedStream_ok data =
  (let d := Some data in
   is_object d
   && (true
       && is_literal "playedStream" (prop d "event")
       && is_finite_number (prop d "sequenceNumber")
       && is_uuid (prop d "streamId")
       && is_string (prop d "name"))).
Proof. unfold playedStream_ok. cbv zeta. btauto. Qed.

Lemma PlayedStreamEventSchema_checks (data : json) :
  checks (playedStream_ok data) (offends (Some data) playedStream_field)
         (PlayedStreamEventSchema (Some data)).
Proof.
  rewrite playedStream_ok_shape. cbv zeta. unfold PlayedStreamEventSchema.
  apply checks_object; [constructor|]. intros props E. rewrite E.
  cbn [prop]. check_fields.
  - apply checks_literal. constructor.
  - apply checks_number. constructor.
  - apply checks_uuid. constructor.
  - apply checks_string. constructor.
Qed.

Lemma PlayedStreamEventSchema_typed (data : json) (ev : PlayedStreamEvent.t) :
  PlayedStreamEventSchema (Some data) = Valid ev ->
  prop (Some data) "event" = Some (JString "playedStream")
  /\ prop (Some data) "sequenceNumber"
     = Some (JNumber (PlayedStreamEvent.sequenceNumber ev))
  /\ prop (Some data) "streamId"
     = Some (JString (PlayedStreamEvent.streamId ev))
  /\ prop (Some data) "name" = Some (JString (PlayedStreamEvent.name ev)).
Proof.
  intros H. unfold PlayedStreamEventSchema in H.
  apply z_object_valid in H. destruct H as [props [[= ->] H]]. peel H.
  read_fields.
  cbn [prop PlayedStreamEvent.sequenceNumber PlayedStreamEvent.streamId
       PlayedStreamEvent.name].
  repeat split; assumption.
Qed.

Lemma clearedAudio_ok_shape (data : json) :
  clearedAudio_ok data =
  (let d := Some data in
   is_object d
   && (true
       && is_literal "clearedAudio" (prop d "event")
       && is_finite_number (prop d "sequenceNumber")
       && is_uuid (prop d "streamId"))).
Proof. unfold clearedAudio_ok. cbv zeta. btauto. Qed.

Lemma ClearedAudioEventSchema_checks (data : json) :
  checks (clearedAudio_ok data) (offends (Some data) clearedAudio_field)
         (ClearedAudioEventSchema (Some data)).
Proof.
  rewrite clearedAudio_ok_shape. cbv zeta. unfold ClearedAudioEventSchema.
  apply checks_object; [constructor|]. intros props E. rewrite E.
  cbn [prop]. check_fields.
  - apply checks_literal. constructor.
  - apply checks_number. constructor.
  - apply checks_uuid. constructor.
Qed.

Lemma ClearedAudioEventSchema_typed (data : json) (ev : ClearedAudioEvent.t) :
  ClearedAudioEventSchema (Some data) = Valid ev ->
  prop (Some data) "event" = Some (JString "clearedAudio")
  /\ prop (Some data) "sequenceNumber"
     = Some (JNumber (ClearedAudioEvent.sequenceNumber ev))
  /\ prop (Some data) "streamId"
     = Some (JString (ClearedAudioEvent.streamId ev)).
Proof.
  intros H. unfold ClearedAudioEventSchema in H.
  apply z_object_valid in H. destruct H as [props [[= ->] H]]. peel H.
  read_fields.
  cbn [prop ClearedAudioEvent.sequenceNumber ClearedAudioEvent.streamId].
  repeat split; assumption.
Qed.

(** X2: a decoded value passes [DTMFEventSchema], [PlayedStreamEventSchema]
    or [ClearedAudioEventSchema] exactly when it is an object with the
    schema's [event] string, a finite [sequenceNumber], a [streamId] in the
    identifier format and, for [dtmf], a string [extra_headers] and an object
    [dtmf] with strings [track], [digit] (of any length) and [timestamp], for
    [playedStream] a string [name]; the event returned holds those values,
    and every issue of a refusal leads to a field that breaks its rule. *)
Theorem control_event_schemas_verdict (data : json) :
  match DTMFEventSchema (Some data) with
  | Valid ev =>
      dtmf_ok data = true
      /\ at_path (Some data) [Key "sequenceNumber"]
         = Some (JNumber (DTMFEvent.sequenceNumber ev))
      /\ at_path (Some data) [Key "streamId"]
         = Some (JString (DTMFEvent.streamId ev))
      /\ at_path (Some data) [Key "extra_headers"]
         = Some (JString (DTMFEvent.extra_headers ev))
      /\ at_path (Some data) [Key "dtmf"; Key "track"]
         = Some (JString (DTMFEventData.track (DTMFEvent.dtmf ev)))
      /\ at_path (Some data) [Key "dtmf"; Key "digit"]
         = Some (JString (DTMFEventData.digit (DTMFEvent.dtmf ev)))
      /\ at_path (Some data) [Key "dtmf"; Key "timestamp"]
         = Some (JString (DTMFEventData.timestamp (DTMFEvent.dtmf ev)))
  | Invalid issues =>
      dtmf_ok data = false /\ issues <> []
      /\ Forall (offends (Some data) dtmf_field) issues
  end
  /\ match PlayedStreamEventSchema (Some data) with
     | Valid ev =>
         playedStream_ok data = true
         /\ at_path (Some data) [Key "sequenceNumber"]
            = Some (JNumber (PlayedStreamEvent.sequenceNumber ev))
         /\ at_path (Some data) [Key "streamId"]
            = Some (JString (PlayedStreamEvent.streamId ev))
         /\ at_path (Some data) [Key "name"]
            = Some (JString (PlayedStreamEvent.name ev))
     | Invalid issues =>
         playedStream_ok data = false /\ issues <> []
         /\ Forall (offends (Some data) playedStream_field) issues
     end
  /\ match ClearedAudioEventSchema (Some data) with
     | Valid ev =>
         clearedAudio_ok data = true
         /\ at_path (Some data) [Key "sequenceNumber"]
            = Some (JNumber (ClearedAudioEvent.sequenceNumber ev))
         /\ at_path (Some data) [Key "streamId"]
            = Some (JString (ClearedAudioEvent.streamId ev))
     | Invalid issues =>
         clearedAudio_ok data = false /\ issues <> []
         /\ Forall (offends (Some data) clearedAudio_field) issues
     end.
Proof.
  split; [|split].
  - pose proof (DTMFEventSchema_checks data) as C.
    destruct (DTMFEventSchema (Some data)) as [ev|issues] eqn:E; [|exact C].
    split; [exact C|].
    pose proof (DTMFEventSchema_typed data ev E) as T. cbv zeta in T.
    cbn [at_path]. intuition.
  - pose proof (PlayedStreamEventSchema_checks data) as C.
    destruct (PlayedStreamEventSchema (Some data)) as [ev|issues] eqn:E;
      [|exact C].
    split; [exact C|].
    pose proof (PlayedStreamEventSchema_typed data ev E) as T.
    cbn [at_path]. intuition.
  - pose proof (ClearedAudioEventSchema_checks data) as C.
    destruct (ClearedAudioEventSchema (Some data)) as [ev|issues] eqn:E;
      [|exact C].
    split; [exact C|].
    pose proof (ClearedAudioEventSchema_typed data ev E) as T.
    cbn [at_path]. intuition.
Qed.

(** ** Routing *)

Lemma object_of_valid (A : Type) (body : list (string * json) -> ZodResult A)
  (data : json) (a : A) :
  z_object body (Some data) = Valid a -> exists props, data = JObject props.
Proof.
  intros H. apply z_object_valid in H. destruct H as [props [[= ->] _]]. eauto.
Qed.

Ltac route_from_schema S d H Hev :=
  let props := fresh "props" in
  let Hobj := fresh "Hobj" in
  assert (Hobj : exists props, d = JObject props)
    by (unfold S in H; exact (object_of_valid _ _ _ _ H));
  destruct Hobj as [props ->];
  unfold route; cbn [prop] in *; rewrite Hev;
  match goal with
  | |- context [case_of ?v] =>
      let r := eval vm_compute in (case_of v) in change (case_of v) with r
  end;
  cbv iota; rewrite H; reflexivity.

Ltac schema_from_route :=
  unfold route;
  match goal with
  | |- match ?d with _ => _ end = _ -> _ =>
      destruct d as [| | | | |?props]; try discriminate
  end;
  cbn [prop];
  match goal with
  | |- context [case_of ?v] => destruct (case_of v) as [[| | | |]|]
  end;
  unfold checked; try discriminate;
  match goal with
  | |- context [match ?S (Some ?d) with _ => _ end] => destruct (S (Some d))
  end; try discriminate;
  intros [= ->]; reflexivity.

(** X3: the dispatcher sends a value to the listeners of a kind exactly when
    the value passes the schema of that kind, so a value is never sent to
    listeners of two kinds and a well-formed event is never reported as
    unknown; it reports an unknown event type exactly when the value is not
    [null] and its [event] is none of the five event names. *)
Theorem route_agrees_with_schemas (data : json) :
  (forall e, route data = ToStart e <-> StartEventSchema (Some data) = Valid e)
  /\ (forall e, route data = ToMedia e <-> MediaEventSchema (Some data) = Valid e)
  /\ (forall e, route data = ToDtmf e <-> DTMFEventSchema (Some data) = Valid e)
  /\ (forall e, route data = ToPlayedStream e
                <-> PlayedStreamEventSchema (Some data) = Valid e)
  /\ (forall e, route data = ToClearedAudio e
                <-> ClearedAudioEventSchema (Some data) = Valid e)
  /\ (forall ev, route data = Unknown ev
                 <-> data <> JNull /\ ev = prop (Some data) "event"
                     /\ case_of ev = None).
Proof.
  repeat split.
  - apply route_start.
  - apply start_routed.
  - schema_from_route.
  - intros H. pose proof (MediaEventSchema_typed data e H) as T.
    cbv zeta in T. destruct T as [Hev _]. route_from_schema MediaEventSchema data H Hev.
  - schema_from_route.
  - intros H. pose proof (DTMFEventSchema_typed data e H) as T.
    cbv zeta in T. destruct T as [Hev _]. route_from_schema DTMFEventSchema data H Hev.
  - schema_from_route.
  - intros H. pose proof (PlayedStreamEventSchema_typed data e H) as T.
    destruct T as [Hev _]. route_from_schema PlayedStreamEventSchema data H Hev.
  - schema_from_route.
  - intros H. pose proof (ClearedAudioEventSchema_typed data e H) as T.
    destruct T as [Hev _]. route_from_schema ClearedAudioEventSchema data H Hev.
  - intros ->. discriminate.
  - revert H. unfold route.
    destruct data as [| | | | |props]; try discriminate;
      try (intros [= <-]; reflexivity).
    cbn [prop].
    destruct (case_of (assoc "event" props)) as [[| | | |]|]; unfold checked;
      try match goal with
          | |- context [match ?S (Some ?d) with _ => _ end] =>
              destruct (S (Some d))
          end; try discriminate.
    intros [= <-]. reflexivity.
  - revert H. unfold route.
    destruct data as [| | | | |props]; try discriminate;
      try (intros [= <-]; reflexivity).
    cbn [prop].
    destruct (case_of (assoc "event" props)) as [[| | | |]|] eqn:C;
      unfold checked;
      try match goal with
          | |- context [match ?S (Some ?d) with _ => _ end] =>
              destruct (S (Some d))
          end; try discriminate.
    intros [= <-]. exact C.
  - intros [Hn [-> Hc]]. unfold route.
    destruct data as [| | | | |props]; try contradiction; try reflexivity.
    cbn [prop] in *. rewrite Hc. reflexivity.
Qed.
